(** * Flask-CloudFlare: the query object, its pagination and the cached API handle

    A shallow embedding of [flask_cloudflare.py].  Python values that travel
    through the code (decoded JSON, keyword arguments) are an inductive type;
    the dictionaries the code mutates ([request.params], [request.headers],
    [payload], the attributes of the application context) are finite maps;
    the remote end is a script of replies consumed one per request, and every
    request handed to the session is logged. *)

From Stdlib Require Import ZArith String Ascii List Bool.
From stdpp Require Import base option list gmap strings fin_maps.

Local Open Scope Z_scope.
Local Open Scope string_scope.

(** ** Python values *)

(** The values [response.json()] can produce and that keyword arguments
    carry.  Numbers are the integers ([int]); a JSON number with a fraction
    or an exponent (a Python [float]) is outside this model.  A [str] is its
    sequence of characters. *)
#[warnings="-register-all"]
Inductive pyval : Type :=
| VNone
| VBool (b : bool)
| VInt (n : Z)
| VStr (s : string)
| VList (l : list pyval)
| VDict (d : gmap string pyval).

(** Truth value of an object, as [not x] and [if x:] compute it. *)
Definition truthy (v : pyval) : bool :=
  match v with
  | VNone => false
  | VBool b => b
  | VInt n => negb (n =? 0)%Z
  | VStr s => negb (String.eqb s "")
  | VList l => match l with [] => false | _ :: _ => true end
  | VDict d => negb (bool_decide (d = ∅))
  end.

(** [bool] is a subclass of [int]: [True] counts as 1 and [False] as 0. *)
Definition as_int (v : pyval) : option Z :=
  match v with
  | VInt n => Some n
  | VBool b => Some (if b then 1 else 0)
  | _ => None
  end.

(** [a == b]. *)
Fixpoint py_eq (a b : pyval) {struct a} : bool :=
  match a, b with
  | VNone, VNone => true
  | VStr s, VStr t => String.eqb s t
  | VList xs, VList ys =>
      (fix go (xs ys : list pyval) {struct xs} : bool :=
         match xs, ys with
         | [], [] => true
         | x :: xs', y :: ys' => py_eq x y && go xs' ys'
         | _, _ => false
         end) xs ys
  | VDict d, VDict e =>
      bool_decide (dom d = dom e)
      && map_fold (fun k v acc =>
                     acc && match e !! k with
                            | Some w => py_eq v w
                            | None => false
                            end) true d
  | _, _ =>
      match as_int a, as_int b with
      | Some x, Some y => (x =? y)%Z
      | _, _ => false
      end
  end.

(** ** Responses, exceptions and results *)

Module Response.
(** A response of the HTTP client library, by what the code observes of it:
    [json] is the outcome of [response.json()], [None] when that call
    raises. *)
Record t : Type := mk {
  status_code : Z;
  text : string;
  json : option pyval
}.
End Response.

(** The exceptions that can leave the code.  [AssertionError] is what a
    failing [assert] raises: the caller misused the query (the specification
    calls this error kind UsageError).  [ConnectionError] stands for any
    failure of the transport inside [session.send]. *)
Inductive exn : Type :=
| AssertionError
| APIError (response : Response.t)
| KeyError (key : string)
| TypeError
| AttributeError
| ConnectionError.

Inductive Res (A : Type) : Type :=
| Ok (a : A)
| Raise (e : exn).
Arguments Ok {A} a.
Arguments Raise {A} e.

Definition bind {A B : Type} (r : Res A) (f : A -> Res B) : Res B :=
  match r with
  | Ok a => f a
  | Raise e => Raise e
  end.

Notation "x <- r ;; k" := (bind r (fun x => k))
  (at level 100, r at next level, right associativity).

(** [a < b]: integers (and booleans) by value, two strings and two lists
    lexicographically; any other pair is a [TypeError]. *)
Fixpoint py_lt (a b : pyval) {struct a} : Res bool :=
  match as_int a, as_int b with
  | Some x, Some y => Ok (x <? y)%Z
  | _, _ =>
      match a, b with
      | VStr s, VStr t => Ok (String.ltb s t)
      | VList xs, VList ys =>
          (fix go (xs ys : list pyval) {struct xs} : Res bool :=
             match xs, ys with
             | [], [] => Ok false
             | [], _ :: _ => Ok true
             | _ :: _, [] => Ok false
             | x :: xs', y :: ys' =>
                 if py_eq x y then go xs' ys' else py_lt x y
             end) xs ys
      | _, _ => Raise TypeError
      end
  end.

(** [v + 1]. *)
Definition py_succ (v : pyval) : Res pyval :=
  match as_int v with
  | Some n => Ok (VInt (n + 1))
  | None => Raise TypeError
  end.

(** [v[key]] for a string key. *)
Definition py_getitem (v : pyval) (key : string) : Res pyval :=
  match v with
  | VDict d =>
      match d !! key with
      | Some x => Ok x
      | None => Raise (KeyError key)
      end
  | _ => Raise TypeError
  end.

(** [v.get(key, default)]: only a [dict] has the method. *)
Definition py_get (v : pyval) (key : string) (default : pyval) : Res pyval :=
  match v with
  | VDict d => Ok (match d !! key with Some x => x | None => default end)
  | _ => Raise AttributeError
  end.

(** ** Sessions and request descriptors of the HTTP client library *)

Module Session.
(** A [requests.Session] object: [ident] is the identity of the object,
    [headers] the entries this code writes into [session.headers]. *)
Record t : Type := mk {
  ident : nat;
  headers : gmap string (option string);
  timeout : option Z
}.
End Session.

(** The string [json.dumps(payload)], kept symbolic. *)
Inductive body : Type :=
| json_dumps (payload : gmap string pyval).

Module Request.
(** A [requests.Request] object. *)
Record t : Type := mk {
  method : string;
  url : string;
  headers : gmap string string;
  params : gmap string pyval;
  data : option body
}.

(** [Request(method, url)]: no header, no parameter, no body. *)
Definition new (method url : string) : t :=
  mk method url ∅ ∅ None.

Definition set_params (r : t) (p : gmap string pyval) : t :=
  mk (method r) (url r) (headers r) p (data r).

Definition set_body (r : t) (content_type : string) (b : body) : t :=
  mk (method r) (url r) (<["Content-Type" := content_type]> (headers r))
     (params r) (Some b).
End Request.

(** What [session.prepare_request(request)] is built from: the session and
    the descriptor as they are at that moment. *)
Record PreparedRequest : Type := prepare_request {
  via : Session.t;
  descriptor : Request.t
}.

(** What the remote end does with one request: it answers with a response,
    or the transport fails ([None]). *)
Definition reply : Type := option Response.t.

(** ** APIQuery: the query object *)

Module APIQuery.
Record t : Type := mk {
  session : Session.t;
  request : Request.t;
  payload : gmap string pyval
}.

(** [__init__] *)
Definition new (session : Session.t) (request : Request.t) : t :=
  mk session request ∅.

(** [filter], called with the keyword arguments [kwargs]: the result and the
    query object afterwards; on success the result is the query object
    itself ([return self]). *)
Definition filter (kwargs : gmap string pyval) (self : t) : Res t * t :=
  if String.eqb (Request.method (request self)) "GET" then
    let self' :=
      mk (session self)
         (Request.set_params (request self)
            (kwargs ∪ Request.params (request self)))
         (payload self) in
    (Ok self', self')
  else (Raise AssertionError, self).

(** [values], called with the keyword arguments [kwargs]. *)
Definition values (kwargs : gmap string pyval) (self : t) : Res t * t :=
  if String.eqb (Request.method (request self)) "POST"
     || String.eqb (Request.method (request self)) "PUT" then
    let self' :=
      mk (session self) (request self) (kwargs ∪ payload self) in
    (Ok self', self')
  else (Raise AssertionError, self).

(** The query object together with the log of the requests handed to
    [session.send], oldest first. *)
Record World : Type := mkWorld {
  self : t;
  wire : list PreparedRequest
}.

(** Lines 146-148 of [send]: a non-empty payload is serialised into the
    descriptor. *)
Definition attach_payload (q : t) : t :=
  if truthy (VDict (payload q)) then
    mk (session q)
       (Request.set_body (request q) "application/json"
          (json_dumps (payload q)))
       (payload q)
  else q.

(** Lines 151-157 of [send]: decode and validate the envelope. *)
Definition check (response : Response.t) : Res pyval :=
  match Response.json response with
  | None => Raise (APIError response)
  | Some data =>
      success <- py_get data "success" (VBool false) ;;
      if truthy success then Ok data else Raise (APIError response)
  end.

(** [send()], run against the replies still [pending]: the result, the
    world afterwards and the replies left.  When no reply is left the
    transport fails. *)
Definition send (pending : list reply) (w : World)
  : Res pyval * World * list reply :=
  let q := attach_payload (self w) in
  let prepared := prepare_request (session q) (request q) in
  let w' := mkWorld q (wire w ++ [prepared]) in
  match pending with
  | [] => (Raise ConnectionError, w', [])
  | None :: rest => (Raise ConnectionError, w', rest)
  | Some response :: rest => (check response, w', rest)
  end.

(** [execute()] *)
Definition execute (pending : list reply) (w : World)
  : Res unit * World * list reply :=
  let '(r, w', rest) := send pending w in
  (_ <- r ;; Ok tt, w', rest).

(** A generator, by what running it does: it is suspended at a [yield]
    with a value (and resumes as [k]), it returns, or it raises.  Each
    node records the world and the replies left at that moment.  The two
    consumers in this code, [list] and [next], do nothing to the query
    between two items, so the run after a [yield] is the one recorded. *)
Inductive gen : Type :=
| Yield (v : pyval) (w : World) (pending : list reply) (k : gen)
| Return (w : World) (pending : list reply)
| Throw (e : exn) (w : World) (pending : list reply).

(** [yield from items], then [k]. *)
Definition yield_from (items : list pyval) (w : World)
    (pending : list reply) (k : gen) : gen :=
  fold_right (fun v k' => Yield v w pending k') k items.

(** The characters of a [str], each a [str] of length one. *)
Definition characters (s : string) : list pyval :=
  map (fun c => VStr (String c "")) (list_ascii_of_string s).

(** Lines 136-142 of [__iter__]: [true] when the loop goes round again. *)
Definition turn_page (data : pyval) (q : t) : Res bool * t :=
  match py_get data "result_info" VNone with
  | Raise e => (Raise e, q)
  | Ok VNone => (Ok false, q)
  | Ok info =>
      if negb (String.eqb (Request.method (request q)) "GET") then
        (Raise AssertionError, q)
      else
        match (count <- py_getitem info "count" ;;
               per_page <- py_getitem info "per_page" ;;
               py_lt count per_page) with
        | Raise e => (Raise e, q)
        | Ok true => (Ok false, q)
        | Ok false =>
            match (page <- py_getitem info "page" ;; py_succ page) with
            | Raise e => (Raise e, q)
            | Ok next =>
                (Ok true,
                 mk (session q)
                    (Request.set_params (request q)
                       (<["page" := next]> (Request.params (request q))))
                    (payload q))
            end
        end
  end.

(** One round of the [while True] loop of [__iter__]; [again] is the loop
    from its head. *)
Definition round (pending : list reply) (w : World)
    (again : World -> gen) : gen :=
  let '(r, w1, rest) := send pending w in
  match (data <- r ;; result <- py_getitem data "result" ;;
         Ok (data, result)) with
  | Raise e => Throw e w1 rest
  | Ok (data, result) =>
      let after_page :=
        match turn_page data (self w1) with
        | (Raise e, q) => Throw e (mkWorld q (wire w1)) rest
        | (Ok false, q) => Return (mkWorld q (wire w1)) rest
        | (Ok true, q) => again (mkWorld q (wire w1))
        end in
      match result with
      | VDict _ => Yield result w1 rest (Return w1 rest)
      | VList l => yield_from l w1 rest after_page
      | VStr s => yield_from (characters s) w1 rest after_page
      | VNone | VBool _ | VInt _ => Throw TypeError w1 rest
      end
  end.

(** [__iter__()].  Every round takes one reply, so the loop is by recursion
    on the replies; with none left [send] raises and [again] is not
    reached. *)
Fixpoint iter (pending : list reply) (w : World) : gen :=
  match pending with
  | [] => round [] w (fun w' => Return w' [])
  | r :: rest => round (r :: rest) w (iter rest)
  end.

(** [list(g)] *)
Fixpoint list_of (g : gen) : Res (list pyval) * World * list reply :=
  match g with
  | Yield v _ _ k =>
      let '(r, w, rest) := list_of k in
      (l <- r ;; Ok (v :: l), w, rest)
  | Return w rest => (Ok [], w, rest)
  | Throw e w rest => (Raise e, w, rest)
  end.

(** [next(g, None)] *)
Definition next_or_none (g : gen) : Res pyval * World * list reply :=
  match g with
  | Yield v w rest _ => (Ok v, w, rest)
  | Return w rest => (Ok VNone, w, rest)
  | Throw e w rest => (Raise e, w, rest)
  end.

(** [first()] *)
Definition first (pending : list reply) (w : World)
  : Res pyval * World * list reply :=
  next_or_none (iter pending w).

(** [all()] *)
Definition all (pending : list reply) (w : World)
  : Res (list pyval) * World * list reply :=
  list_of (iter pending w).
End APIQuery.

(** ** API: the endpoint builder *)

Module API.
Record t : Type := mk {
  session : Session.t
}.

(** [request(method, path)] *)
Definition request (method : string) (path : list string) : Request.t :=
  Request.new method
    ("https://api.cloudflare.com/client/v4/" ++ String.concat "/" path).

Definition get (self : t) (args : list string) : APIQuery.t :=
  APIQuery.new (session self) (request "GET" args).

Definition post (self : t) (args : list string) : APIQuery.t :=
  APIQuery.new (session self) (request "POST" args).

Definition put (self : t) (args : list string) : APIQuery.t :=
  APIQuery.new (session self) (request "PUT" args).

Definition delete (self : t) (args : list string) : APIQuery.t :=
  APIQuery.new (session self) (request "DELETE" args).
End API.

(** ** CloudFlare: the extension object and the per-context API handle *)

Module CloudFlare.
Record t : Type := mk {
  auth_email : option string;
  auth_key : option string
}.

(** An application context, by the attributes set on it that hold an API
    handle. *)
Record AppCtx : Type := mkCtx {
  attrs : gmap string API.t
}.

(** The part of the interpreter the property [api] touches: the top of
    [_app_ctx_stack] ([None] outside any application context) and the
    identity the next allocated session gets. *)
Record Runtime : Type := mkRuntime {
  top : option AppCtx;
  fresh : nat
}.

(** [session()]: a new session object with the two authentication headers. *)
Definition session (self : t) (rt : Runtime) : Session.t * Runtime :=
  (Session.mk (fresh rt)
     (<["X-Auth-Key" := auth_key self]>
        (<["X-Auth-Email" := auth_email self]> ∅))
     (Some 20%Z),
   mkRuntime (top rt) (S (fresh rt))).

(** The property [api].  The handle is looked up under the attribute
    [cloudflare_api]; a new one is stored under the attribute [api].
    Outside an application context the lookup gives [None], the handle is
    built, and storing it on [None] raises. *)
Definition api (self : t) (rt : Runtime) : Res API.t * Runtime :=
  match top rt with
  | None =>
      let '(s, rt1) := session self rt in
      (Raise AttributeError, rt1)
  | Some ctx =>
      match attrs ctx !! "cloudflare_api" with
      | Some api => (Ok api, rt)
      | None =>
          let '(s, rt1) := session self rt in
          let api := API.mk s in
          (Ok api,
           mkRuntime (Some (mkCtx (<["api" := api]> (attrs ctx))))
             (fresh rt1))
      end
  end.
End CloudFlare.

(** ** Programs over one query object *)

(** The public operations of a query object, as a caller strings them
    together. *)
Inductive op : Type :=
| Filter (kwargs : gmap string pyval)
| Values (kwargs : gmap string pyval)
| First
| All
| Execute
| Send.

(** One operation; a raised exception is caught by the caller, the world it
    leaves behind stays. *)
Definition step (o : op) (pending : list reply) (w : APIQuery.World)
  : APIQuery.World * list reply :=
  match o with
  | Filter kwargs =>
      (APIQuery.mkWorld (snd (APIQuery.filter kwargs (APIQuery.self w)))
         (APIQuery.wire w), pending)
  | Values kwargs =>
      (APIQuery.mkWorld (snd (APIQuery.values kwargs (APIQuery.self w)))
         (APIQuery.wire w), pending)
  | First => let '(_, w', rest) := APIQuery.first pending w in (w', rest)
  | All => let '(_, w', rest) := APIQuery.all pending w in (w', rest)
  | Execute => let '(_, w', rest) := APIQuery.execute pending w in (w', rest)
  | Send => let '(_, w', rest) := APIQuery.send pending w in (w', rest)
  end.

Fixpoint run (ops : list op) (pending : list reply) (w : APIQuery.World)
  : APIQuery.World * list reply :=
  match ops with
  | [] => (w, pending)
  | o :: ops' => let '(w', rest) := step o pending w in run ops' rest w'
  end.

(** ** Pages *)

(** The envelope of a response: the decoded body is a dict whose [success]
    is true. *)
Definition envelope (r : reply) (env : gmap string pyval) : Prop :=
  exists response success,
    r = Some response /\
    Response.json response = Some (VDict env) /\
    env !! "success" = Some success /\
    truthy success = true.

(** What [result_info] says of a page. *)
Record page_info : Type := mkInfo {
  count : Z;
  per_page : Z;
  page : Z
}.

Definition has_info (env : gmap string pyval) (i : page_info) : Prop :=
  exists info,
    env !! "result_info" = Some (VDict info) /\
    info !! "count" = Some (VInt (count i)) /\
    info !! "per_page" = Some (VInt (per_page i)) /\
    info !! "page" = Some (VInt (page i)).

Definition no_info (env : gmap string pyval) : Prop :=
  env !! "result_info" = None \/ env !! "result_info" = Some VNone.

(** A reply that is a page: a sequence of [items] with its [result_info]. *)
Definition is_page (r : reply) (items : list pyval) (i : page_info) : Prop :=
  exists env,
    envelope r env /\ env !! "result" = Some (VList items) /\ has_info env i.

(** A reply that is a sequence of [items] without [result_info]. *)
Definition is_plain (r : reply) (items : list pyval) : Prop :=
  exists env,
    envelope r env /\ env !! "result" = Some (VList items) /\ no_info env.

(** A reply whose result is the single object [o]. *)
Definition is_single (r : reply) (o : gmap string pyval) : Prop :=
  exists env, envelope r env /\ env !! "result" = Some (VDict o).

(** The page after which the code asks for another one. *)
Definition full (i : page_info) : Prop := (per_page i <= count i)%Z.

(** The page after which the code stops. *)
Definition short (i : page_info) : Prop := (count i < per_page i)%Z.

(** A reply that ends the iteration after its [items]. *)
Definition is_closing (r : reply) (items : list pyval) : Prop :=
  is_plain r items \/ exists i, is_page r items i /\ short i.

(** The query object with [params['page']] set to [n]. *)
Definition with_page (q : APIQuery.t) (n : Z) : APIQuery.t :=
  APIQuery.mk (APIQuery.session q)
    (Request.set_params (APIQuery.request q)
       (<["page" := VInt n]> (Request.params (APIQuery.request q))))
    (APIQuery.payload q).

(** The query object after the pages [infos] were each followed by a
    request for the next one. *)
Definition after_pages (q : APIQuery.t) (infos : list page_info) : APIQuery.t :=
  fold_left (fun q' i => with_page q' (page i + 1)) infos q.

(** The requests of a traversal that met the full pages [infos]: the
    descriptor as it is, then one more request after each page. *)
Fixpoint requests (q : APIQuery.t) (infos : list page_info)
  : list PreparedRequest :=
  prepare_request (APIQuery.session q) (APIQuery.request q)
  :: match infos with
     | [] => []
     | i :: infos' => requests (with_page q (page i + 1)) infos'
     end.

(** Two descriptors that differ at most in [params['page']]. *)
Definition same_but_page (r r' : Request.t) : Prop :=
  Request.method r' = Request.method r /\
  Request.url r' = Request.url r /\
  Request.headers r' = Request.headers r /\
  Request.data r' = Request.data r /\
  forall key, key <> "page" ->
    Request.params r' !! key = Request.params r !! key.

(** Two descriptors with the same headers and the same body. *)
Definition same_body (r r' : Request.t) : Prop :=
  Request.headers r' = Request.headers r /\
  Request.data r' = Request.data r.

(** A descriptor with no body and no [Content-Type] header. *)
Definition bare (r : Request.t) : Prop :=
  Request.headers r !! "Content-Type" = None /\ Request.data r = None.

(** Two states of a query object that differ at most in [params['page']]. *)
Definition unchanged_but_page (q q' : APIQuery.t) : Prop :=
  APIQuery.session q' = APIQuery.session q /\
  APIQuery.payload q' = APIQuery.payload q /\
  same_but_page (APIQuery.request q) (APIQuery.request q').

(** What one operation can make of the world [w]: the method stays; the
    payload stays or, on a POST or PUT query, takes keyword arguments in;
    headers and body are as before or as [send] sets them; every request
    sent has the headers and the body [send] sets. *)
Definition evolves (w w' : APIQuery.World) : Prop :=
  let q := APIQuery.self w in
  let q' := APIQuery.self w' in
  Request.method (APIQuery.request q') = Request.method (APIQuery.request q) /\
  (APIQuery.payload q' = APIQuery.payload q \/
   (Request.method (APIQuery.request q) = "POST" \/
    Request.method (APIQuery.request q) = "PUT") /\
   exists kwargs,
     APIQuery.payload q' = kwargs ∪ APIQuery.payload q /\
     APIQuery.request q' = APIQuery.request q) /\
  (same_body (APIQuery.request q) (APIQuery.request q') \/
   same_body (APIQuery.request (APIQuery.attach_payload q))
     (APIQuery.request q')) /\
  exists new,
    APIQuery.wire w' = (APIQuery.wire w ++ new)%list /\
    Forall (fun p => same_body (APIQuery.request (APIQuery.attach_payload q))
                       (descriptor p)) new.

(** The worlds a generator passes through: at each [yield] and at its end. *)
Fixpoint worlds (g : APIQuery.gen) : list APIQuery.World :=
  match g with
  | APIQuery.Yield _ w _ k => w :: worlds k
  | APIQuery.Return w _ => [w]
  | APIQuery.Throw _ w _ => [w]
  end.

(** The world once [send] has handed its request to the session. *)
Definition sent (w : APIQuery.World) : APIQuery.World :=
  let q := APIQuery.attach_payload (APIQuery.self w) in
  APIQuery.mkWorld q
    (APIQuery.wire w
       ++ [prepare_request (APIQuery.session q) (APIQuery.request q)]).

(** A page that was answered in full, with what it holds. *)
Record full_page : Type := mkFull {
  answer : reply;
  items : list pyval;
  info : page_info
}.

Definition is_full_page (p : full_page) : Prop :=
  is_page (answer p) (items p) (info p) /\ full (info p).

(** The reply of a well-behaved remote end for a page of a listing. *)
Definition page_reply (l : list pyval) (i : page_info) : reply :=
  Some (Response.mk 200 ""
    (Some (VDict
       (<["success" := VBool true]>
          (<["result" := VList l]>
             (<["result_info" :=
                  VDict (<["count" := VInt (count i)]>
                           (<["per_page" := VInt (per_page i)]>
                              (<["page" := VInt (page i)]> ∅)))]> ∅)))))).

(** The reply for a single object. *)
Definition object_reply (o : gmap string pyval) : reply :=
  Some (Response.mk 200 ""
    (Some (VDict (<["success" := VBool true]> (<["result" := VDict o]> ∅))))).


(** ** Setting the extension up *)

Module Extension.
(** A Flask application, by what [init_app] touches: [extensions] maps a
    name to the identity of the extension object registered under it,
    [config] holds the configuration values (strings here). *)
Record App : Type := mkApp {
  extensions : gmap string nat;
  config : gmap string string
}.

(** [CloudFlare.init_app(app)], for the extension object of identity
    [ident]: the result, the extension object and the application
    afterwards.  The object is registered before the configuration is read,
    and [auth_email] is written before [CLOUDFLARE_AUTH_KEY] is looked up. *)
Definition init_app (ident : nat) (self : CloudFlare.t) (app : App)
  : Res unit * CloudFlare.t * App :=
  let app' := mkApp (<["cloudflare" := ident]> (extensions app)) (config app) in
  match config app !! "CLOUDFLARE_AUTH_EMAIL" with
  | None => (Raise (KeyError "CLOUDFLARE_AUTH_EMAIL"), self, app')
  | Some email =>
      let self1 := CloudFlare.mk (Some email) (CloudFlare.auth_key self) in
      match config app !! "CLOUDFLARE_AUTH_KEY" with
      | None => (Raise (KeyError "CLOUDFLARE_AUTH_KEY"), self1, app')
      | Some key => (Ok tt, CloudFlare.mk (Some email) (Some key), app')
      end
  end.

End Extension.

(** The property [api] read [n] times in a row: the results, oldest first,
    and the runtime afterwards. *)
Fixpoint accesses (n : nat) (cf : CloudFlare.t) (rt : CloudFlare.Runtime)
  : list (Res API.t) * CloudFlare.Runtime :=
  match n with
  | O => ([], rt)
  | S n' =>
      let '(r, rt1) := CloudFlare.api cf rt in
      let '(rs, rt2) := accesses n' cf rt1 in
      (r :: rs, rt2)
  end.

(** ** More on generators and replies *)

(** The values a generator yields before it ends, in order. *)
Fixpoint yielded (g : APIQuery.gen) : list pyval :=
  match g with
  | APIQuery.Yield v _ _ k => v :: yielded k
  | APIQuery.Return _ _ => []
  | APIQuery.Throw _ _ _ => []
  end.

(** The places a generator stops at: the world and the replies left at each
    [yield] and at its end. *)
Fixpoint stops (g : APIQuery.gen) : list (APIQuery.World * list reply) :=
  match g with
  | APIQuery.Yield _ w p k => (w, p) :: stops k
  | APIQuery.Return w p => [(w, p)]
  | APIQuery.Throw _ w p => [(w, p)]
  end.

(** A reply on which [send] raises [e]: the transport fails, or the response
    does not pass the validation. *)
Definition fails (r : reply) (e : exn) : Prop :=
  match r with
  | None => e = ConnectionError
  | Some response => APIQuery.check response = Raise e
  end.

(** Two states of a query object for the same endpoint: session, method and
    URL agree. *)
Definition same_endpoint (q q' : APIQuery.t) : Prop :=
  APIQuery.session q' = APIQuery.session q /\
  Request.method (APIQuery.request q') = Request.method (APIQuery.request q) /\
  Request.url (APIQuery.request q') = Request.url (APIQuery.request q).

(** A request sent for the endpoint of [q]. *)
Definition sent_for (q : APIQuery.t) (p : PreparedRequest) : Prop :=
  via p = APIQuery.session q /\
  Request.method (descriptor p) = Request.method (APIQuery.request q) /\
  Request.url (descriptor p) = Request.url (APIQuery.request q).

(** The world after a traversal went through full pages with the
    [result_info] values [infos]: for each one a request was sent and
    [params['page']] was set for the next. *)
Fixpoint advance (w : APIQuery.World) (infos : list page_info)
  : APIQuery.World :=
  match infos with
  | [] => w
  | i :: infos' =>
      advance (APIQuery.mkWorld
                 (with_page (APIQuery.self (sent w)) (page i + 1))
                 (APIQuery.wire (sent w))) infos'
  end.

(** The exception a generator ends with, if it ends with one. *)
Fixpoint ending (g : APIQuery.gen) : option exn :=
  match g with
  | APIQuery.Yield _ _ _ k => ending k
  | APIQuery.Return _ _ => None
  | APIQuery.Throw e _ _ => Some e
  end.

(** * Properties *)

Import APIQuery.

(** ** The fluent interface: [filter] and [values] *)

Lemma method_is (q : APIQuery.t) (m : string) :
  String.eqb (Request.method (request q)) m = true <->
  Request.method (request q) = m.
Proof. apply String.eqb_eq. Qed.

Lemma method_is_not (q : APIQuery.t) (m : string) :
  String.eqb (Request.method (request q)) m = false <->
  Request.method (request q) <> m.
Proof. apply String.eqb_neq. Qed.

(** C6.  On a query whose method is not GET, [filter] fails its assertion
    (the error kind the specification calls UsageError) and leaves the query
    object as it was; on a query whose method is neither POST nor PUT,
    [values] does the same.  On a GET query [filter] merges the keyword
    arguments into [request.params], on a POST or PUT query [values] merges
    them into [payload]; both touch nothing else and return the query object
    itself. *)
Theorem filter_values_guarded (kwargs : gmap string pyval) (q : APIQuery.t) :
  (Request.method (request q) <> "GET" ->
     filter kwargs q = (Raise AssertionError, q)) /\
  (Request.method (request q) <> "POST" ->
   Request.method (request q) <> "PUT" ->
     values kwargs q = (Raise AssertionError, q)) /\
  (Request.method (request q) = "GET" ->
     exists q',
       filter kwargs q = (Ok q', q') /\
       (forall key,
          Request.params (request q') !! key =
          match kwargs !! key with
          | Some v => Some v
          | None => Request.params (request q) !! key
          end) /\
       Request.method (request q') = Request.method (request q) /\
       Request.url (request q') = Request.url (request q) /\
       Request.headers (request q') = Request.headers (request q) /\
       Request.data (request q') = Request.data (request q) /\
       session q' = session q /\ payload q' = payload q) /\
  (Request.method (request q) = "POST" \/ Request.method (request q) = "PUT" ->
     exists q',
       values kwargs q = (Ok q', q') /\
       (forall key,
          payload q' !! key =
          match kwargs !! key with
          | Some v => Some v
          | None => payload q !! key
          end) /\
       request q' = request q /\ session q' = session q).
Proof.
  assert (Hmerge : forall (m : gmap string pyval) key,
             (kwargs ∪ m) !! key =
             match kwargs !! key with Some v => Some v | None => m !! key end).
  { intros m key. rewrite lookup_union. by destruct (kwargs !! key), (m !! key). }
  repeat split.
  - intros Hm. unfold filter. apply method_is_not in Hm. by rewrite Hm.
  - intros Hpost Hput. unfold values.
    apply method_is_not in Hpost. apply method_is_not in Hput.
    by rewrite Hpost, Hput.
  - intros Hm. unfold filter. apply method_is in Hm. rewrite Hm.
    eexists. split; [reflexivity|]. simpl. repeat split; done.
  - intros Hm. unfold values.
    assert (String.eqb (Request.method (request q)) "POST"
            || String.eqb (Request.method (request q)) "PUT" = true) as ->.
    { apply orb_true_iff. destruct Hm as [Hm|Hm]; [left|right];
        by apply method_is. }
    eexists. split; [reflexivity|]. simpl. repeat split; done.
Qed.

(** A POST query rejects [filter], a GET query rejects [values], and the
    allowed calls go through. *)
Lemma filter_values_guarded_witness :
  let s := Session.mk 0 ∅ None in
  let kwargs : gmap string pyval := {[ "name" := VStr "example.org" ]} in
  filter kwargs (API.post (API.mk s) ["zones"])
    = (Raise AssertionError, API.post (API.mk s) ["zones"]) /\
  values kwargs (API.get (API.mk s) ["zones"])
    = (Raise AssertionError, API.get (API.mk s) ["zones"]) /\
  (exists q', filter kwargs (API.get (API.mk s) ["zones"]) = (Ok q', q')) /\
  (exists q', values kwargs (API.put (API.mk s) ["zones"]) = (Ok q', q')).
Proof.
  intros s kwargs.
  split; [|split; [|split]].
  - apply (proj1 (filter_values_guarded kwargs (API.post (API.mk s) ["zones"]))).
    discriminate.
  - apply (proj1 (proj2
      (filter_values_guarded kwargs (API.get (API.mk s) ["zones"])))).
    + discriminate.
    + discriminate.
  - destruct (proj1 (proj2 (proj2
      (filter_values_guarded kwargs (API.get (API.mk s) ["zones"]))))
      eq_refl) as [q' [H _]].
    exists q'. exact H.
  - destruct (proj2 (proj2 (proj2
      (filter_values_guarded kwargs (API.put (API.mk s) ["zones"]))))
      (or_intror eq_refl)) as [q' [H _]].
    exists q'. exact H.
Defined.

(** ** [send]: what it puts on the wire and how it validates the answer *)

Lemma send_world (pending : list reply) (w : World) :
  snd (fst (send pending w)) = sent w /\ snd (send pending w) = tail pending.
Proof. unfold send. by destruct pending as [|[response|] rest]. Qed.


Lemma check_envelope (response : Response.t) (env : gmap string pyval) :
  envelope (Some response) env -> check response = Ok (VDict env).
Proof.
  intros (r & success & [= <-] & Hjson & Hs & Ht).
  unfold check. rewrite Hjson. simpl. by rewrite Hs, Ht.
Qed.


(** A body that decodes to a list has no [get]: [AttributeError]. *)
Example send_list_body :
  fst (fst (send [Some (Response.mk 200 "[]" (Some (VList [])))]
              (mkWorld (API.get (API.mk (Session.mk 0 ∅ None)) ["zones"]) [])))
  = Raise AttributeError.
Proof. reflexivity. Qed.


(** ** Iteration *)

Lemma send_envelope (r : reply) (env : gmap string pyval)
    (rest : list reply) (w : World) :
  envelope r env -> send (r :: rest) w = (Ok (VDict env), sent w, rest).
Proof.
  intros Henv. pose proof Henv as (response & success & -> & _).
  unfold send. by rewrite (check_envelope _ _ Henv).
Qed.

Lemma iter_cons (r : reply) (rest : list reply) (w : World) :
  iter (r :: rest) w = round (r :: rest) w (iter rest).
Proof. reflexivity. Qed.

(** With no reply left the traversal ends in the failure of the transport. *)
Lemma iter_nil (w : World) : iter [] w = Throw ConnectionError (sent w) [].
Proof. reflexivity. Qed.

Lemma round_single (r : reply) (o : gmap string pyval) (rest : list reply)
    (w : World) (again : World -> gen) :
  is_single r o ->
  round (r :: rest) w again
    = Yield (VDict o) (sent w) rest (Return (sent w) rest).
Proof.
  intros (env & Henv & Hres). unfold round.
  rewrite (send_envelope _ _ _ _ Henv). simpl. by rewrite Hres.
Qed.

Lemma turn_page_no_info (env : gmap string pyval) (q : APIQuery.t) :
  no_info env -> turn_page (VDict env) q = (Ok false, q).
Proof. unfold turn_page. simpl. by intros [-> | ->]. Qed.

Lemma turn_page_info (env : gmap string pyval) (i : page_info)
    (q : APIQuery.t) :
  has_info env i ->
  Request.method (request q) = "GET" ->
  turn_page (VDict env) q =
    if (count i <? per_page i)%Z then (Ok false, q)
    else (Ok true, with_page q (page i + 1)).
Proof.
  intros (d & Hinfo & Hc & Hpp & Hp) Hget. unfold turn_page. simpl.
  rewrite Hinfo. apply method_is in Hget. rewrite Hget. simpl.
  rewrite Hc, Hpp. simpl. destruct (count i <? per_page i)%Z; [done|].
  by rewrite Hp.
Qed.

Lemma round_plain (r : reply) (l : list pyval) (rest : list reply)
    (w : World) (again : World -> gen) :
  is_plain r l ->
  round (r :: rest) w again
    = yield_from l (sent w) rest (Return (sent w) rest).
Proof.
  intros (env & Henv & Hres & Hinfo). unfold round.
  rewrite (send_envelope _ _ _ _ Henv). simpl. rewrite Hres. simpl.
  by rewrite (turn_page_no_info _ _ Hinfo).
Qed.

Lemma round_page (r : reply) (l : list pyval) (i : page_info)
    (rest : list reply) (w : World) (again : World -> gen) :
  is_page r l i ->
  Request.method (request (self w)) = "GET" ->
  round (r :: rest) w again
    = yield_from l (sent w) rest
        (if (count i <? per_page i)%Z then Return (sent w) rest
         else again (mkWorld (with_page (self (sent w)) (page i + 1))
                       (wire (sent w)))).
Proof.
  intros (env & Henv & Hres & Hinfo) Hget. unfold round.
  rewrite (send_envelope _ _ _ _ Henv). simpl. rewrite Hres. simpl.
  rewrite (turn_page_info _ i _ Hinfo).
  - by destruct (count i <? per_page i)%Z.
  - unfold attach_payload. by destruct (truthy _).
Qed.

Lemma list_of_yield_from (l : list pyval) (w : World) (pending : list reply)
    (k : gen) :
  list_of (yield_from l w pending k) =
    let '(r, w', rest) := list_of k in
    (tl <- r ;; Ok (l ++ tl)%list, w', rest).
Proof.
  induction l as [|v l IH].
  - simpl. destruct (list_of k) as [[[tl|e] w'] rest]; reflexivity.
  - change (yield_from (v :: l) w pending k)
      with (Yield v w pending (yield_from l w pending k)).
    cbn [list_of]. rewrite IH.
    destruct (list_of k) as [[[tl|e] w'] rest]; reflexivity.
Qed.

Lemma page_reply_is_page (l : list pyval) (i : page_info) :
  is_page (page_reply l i) l i.
Proof.
  eexists. split; [|split].
  - eexists _, (VBool true). repeat split; reflexivity.
  - reflexivity.
  - eexists. repeat split; reflexivity.
Qed.

Lemma object_reply_is_single (o : gmap string pyval) :
  is_single (object_reply o) o.
Proof.
  eexists. split.
  - eexists _, (VBool true). repeat split; reflexivity.
  - reflexivity.
Qed.

(** C3.  When the first envelope holds a single object, the traversal yields
    that object and returns, having sent one request, whatever the method of
    the query and whatever [result_info] says; [all] gives the one-element
    list and [first] the object. *)
Theorem single_object_once (r : reply) (o : gmap string pyval)
    (rest : list reply) (w : World) :
  is_single r o ->
  iter (r :: rest) w = Yield (VDict o) (sent w) rest (Return (sent w) rest) /\
  all (r :: rest) w = (Ok [VDict o], sent w, rest) /\
  first (r :: rest) w = (Ok (VDict o), sent w, rest) /\
  length (wire (sent w)) = S (length (wire w)).
Proof.
  intros Hsingle.
  assert (Hiter : iter (r :: rest) w
                  = Yield (VDict o) (sent w) rest (Return (sent w) rest)).
  { rewrite iter_cons. by apply round_single. }
  repeat split.
  - exact Hiter.
  - unfold all. by rewrite Hiter.
  - unfold first. by rewrite Hiter.
  - unfold sent. simpl. rewrite length_app. simpl. lia.
Qed.

(** A PUT answered with one object and a full [result_info]. *)
Lemma single_object_once_witness :
  let o : gmap string pyval := {[ "id" := VStr "ABC" ]} in
  let full_info : gmap string pyval :=
    <["count" := VInt 1]> (<["per_page" := VInt 1]>
      (<["page" := VInt 1]> ∅)) in
  let env : gmap string pyval :=
    <["success" := VBool true]> (<["result" := VDict o]>
      (<["result_info" := VDict full_info]> ∅)) in
  let r := Some (Response.mk 200 "" (Some (VDict env))) in
  let w := mkWorld (API.put (API.mk (Session.mk 0 ∅ None)) ["zones"; "ABC"])
             [] in
  all [r; r] w = (Ok [VDict o], sent w, [r]) /\
  first [r; r] w = (Ok (VDict o), sent w, [r]).
Proof.
  intros o full_info env r w.
  assert (Hsingle : is_single r o).
  { exists env. split; [|reflexivity].
    exists (Response.mk 200 "" (Some (VDict env))), (VBool true).
    repeat split; reflexivity. }
  pose proof (single_object_once r o [r] w Hsingle) as (_ & Hall & Hfirst & _).
  split; [exact Hall | exact Hfirst].
Defined.

(** ** Pagination *)

Lemma attach_payload_idem (q : APIQuery.t) :
  attach_payload (attach_payload q) = attach_payload q.
Proof.
  unfold attach_payload. destruct (truthy (VDict (payload q))) eqn:Hp.
  - cbn [payload]. rewrite Hp. unfold Request.set_body. cbn.
    by rewrite insert_insert_eq.
  - by rewrite Hp.
Qed.

Lemma attach_payload_with_page (q : APIQuery.t) (n : Z) :
  attach_payload (with_page q n) = with_page (attach_payload q) n.
Proof.
  unfold attach_payload, with_page. cbn [payload].
  destruct (truthy (VDict (payload q))); reflexivity.
Qed.

Lemma attach_payload_method (q : APIQuery.t) :
  Request.method (request (attach_payload q)) = Request.method (request q).
Proof. unfold attach_payload. by destruct (truthy _). Qed.

Lemma after_pages_method (q : APIQuery.t) (infos : list page_info) :
  Request.method (request (after_pages q infos)) = Request.method (request q).
Proof.
  revert q. induction infos as [|i infos IH]; intros q; [done|].
  change (after_pages q (i :: infos))
    with (after_pages (with_page q (page i + 1)) infos).
  by rewrite IH.
Qed.

Lemma is_closing_round (r : reply) (l : list pyval) (rest : list reply)
    (w : World) (again : World -> gen) :
  is_closing r l ->
  Request.method (request (self w)) = "GET" ->
  round (r :: rest) w again
    = yield_from l (sent w) rest (Return (sent w) rest).
Proof.
  intros [Hplain|(i & Hpage & Hshort)] Hget.
  - by apply round_plain.
  - rewrite (round_page _ _ i _ _ _ Hpage Hget).
    unfold short in Hshort.
    by destruct (Z.ltb_spec (count i) (per_page i)); [|lia].
Qed.

(** The traversal over full pages and the reply that closes it: every item
    in order, one request per page. *)
Lemma walk_pages (pages : list full_page) (r : reply) (l : list pyval)
    (rest : list reply) (w : World) :
  Request.method (request (self w)) = "GET" ->
  Forall is_full_page pages ->
  is_closing r l ->
  all (map answer pages ++ r :: rest) w =
    (Ok (concat (map items pages) ++ l)%list,
     mkWorld (after_pages (attach_payload (self w)) (map info pages))
       (wire w ++ requests (attach_payload (self w)) (map info pages)),
     rest).
Proof.
  intros Hget Hfull Hclose. revert w Hget.
  induction Hfull as [|p pages [Hpage Hp] _ IH]; intros w Hget.
  - simpl. unfold all. rewrite iter_cons.
    rewrite (is_closing_round _ _ _ _ _ Hclose Hget).
    rewrite list_of_yield_from. simpl. by rewrite app_nil_r.
  - simpl. unfold all. rewrite iter_cons.
    rewrite (round_page _ _ _ _ _ _ Hpage Hget).
    unfold full in Hp.
    destruct (Z.ltb_spec (count (info p)) (per_page (info p))); [lia|].
    rewrite list_of_yield_from.
    unfold all in IH. rewrite IH.
    + simpl. rewrite attach_payload_with_page, attach_payload_idem.
      by rewrite <- !app_assoc.
    + simpl. by rewrite attach_payload_method.
Qed.

Lemma requests_length (q : APIQuery.t) (infos : list page_info) :
  length (requests q infos) = S (length infos).
Proof.
  revert q. induction infos as [|i infos IH]; intros q; [done|].
  simpl. f_equal. apply IH.
Qed.


(** C2.  A GET query whose pages all come back exactly full
    ([count = per_page]) sends one request more than there are pages, each
    with [params['page']] one above the page before; when that last request
    is answered by an empty page ([count = 0], below a positive [per_page]),
    [all] returns the items of the pages before it, each once and in order. *)
Theorem exact_multiple_extra_request (pages : list full_page) (r : reply)
    (i : page_info) (rest : list reply) (w : World) :
  Request.method (request (self w)) = "GET" ->
  Forall (fun p => is_page (answer p) (items p) (info p) /\
                   count (info p) = per_page (info p)) pages ->
  is_page r [] i ->
  count i = 0%Z ->
  (0 < per_page i)%Z ->
  let sent_requests := requests (attach_payload (self w)) (map info pages) in
  all (map answer pages ++ r :: rest) w =
    (Ok (concat (map items pages)),
     mkWorld (after_pages (attach_payload (self w)) (map info pages))
       (wire w ++ sent_requests),
     rest) /\
  length sent_requests = S (length pages).
Proof.
  intros Hget Hpages Hlast Hcount Hper sent_requests. split.
  - rewrite (walk_pages pages r [] rest w Hget).
    + by rewrite app_nil_r.
    + eapply Forall_impl; [exact Hpages|].
      intros p [Hp Heq]. split; [exact Hp|]. unfold full. lia.
    + right. exists i. split; [exact Hlast|]. unfold short. lia.
  - unfold sent_requests. by rewrite requests_length, length_map.
Qed.

(** Paging is for GET only: a POST answered with a page that has
    [result_info] fails the assertion once its items are through. *)
Example post_page_asserts :
  fst (fst (all [page_reply [VInt 1] (mkInfo 1 20 1)]
              (mkWorld (API.post (API.mk (Session.mk 0 ∅ None)) ["zones"]) [])))
  = Raise AssertionError.
Proof. reflexivity. Qed.


(** Two full pages of two records, then an empty page: four records, three
    requests, for the pages 1 (the descriptor as it was), 2 and 3. *)
Lemma exact_multiple_extra_request_witness :
  let i1 := mkInfo 2 2 1 in
  let i2 := mkInfo 2 2 2 in
  let i3 := mkInfo 0 2 3 in
  let p1 := mkFull (page_reply [VInt 1; VInt 2] i1) [VInt 1; VInt 2] i1 in
  let p2 := mkFull (page_reply [VInt 3; VInt 4] i2) [VInt 3; VInt 4] i2 in
  let q := API.get (API.mk (Session.mk 0 ∅ None)) ["zones"; "ABC"; "dns_records"] in
  let w := mkWorld q [] in
  all [answer p1; answer p2; page_reply [] i3] w =
    (Ok [VInt 1; VInt 2; VInt 3; VInt 4],
     mkWorld (with_page q 3)
       [prepare_request (session q) (request q);
        prepare_request (session q) (request (with_page q 2));
        prepare_request (session q) (request (with_page q 3))],
     []).
Proof.
  intros i1 i2 i3 p1 p2 q w.
  assert (Hpages : Forall (fun p => is_page (answer p) (items p) (info p) /\
                            count (info p) = per_page (info p)) [p1; p2]).
  { repeat constructor; apply page_reply_is_page. }
  pose proof (exact_multiple_extra_request [p1; p2] (page_reply [] i3) i3 [] w
                eq_refl Hpages (page_reply_is_page [] i3) eq_refl eq_refl)
    as [H _].
  exact H.
Defined.


(** ** Traversing a query object again *)

Lemma attach_payload_after_pages (q : APIQuery.t) (infos : list page_info) :
  attach_payload (after_pages q infos) = after_pages (attach_payload q) infos.
Proof.
  revert q. induction infos as [|i infos IH]; intros q; [done|].
  change (after_pages q (i :: infos))
    with (after_pages (with_page q (page i + 1)) infos).
  by rewrite IH, attach_payload_with_page.
Qed.

Lemma requests_last (q : APIQuery.t) (infos : list page_info) :
  last (requests q infos) =
    Some (prepare_request (session (after_pages q infos))
            (request (after_pages q infos))).
Proof.
  revert q. induction infos as [|i infos IH]; intros q; [done|].
  change (after_pages q (i :: infos))
    with (after_pages (with_page q (page i + 1)) infos).
  rewrite <- IH. simpl. by destruct infos.
Qed.

(** C8, as the code has it.  A drained query object can be traversed again:
    the second traversal is a new run of the loop, it sends the descriptor as
    the first traversal left it (the request the first traversal sent last,
    [params['page']] not reset) and yields the items of the reply it gets. *)
Theorem drained_query_runs_again (pages : list full_page)
    (r : reply) (l : list pyval) (r' : reply) (l' : list pyval)
    (rest : list reply) (w : World) :
  Request.method (request (self w)) = "GET" ->
  Forall is_full_page pages ->
  is_closing r l ->
  is_closing r' l' ->
  let '(_, w1, rest1) := all (map answer pages ++ r :: r' :: rest) w in
  let again := prepare_request (session (self w1)) (request (self w1)) in
  last (wire w1) = Some again /\
  all rest1 w1 = (Ok l', mkWorld (self w1) (wire w1 ++ [again]), rest).
Proof.
  intros Hget Hpages Hclose Hclose'.
  rewrite (walk_pages pages r l (r' :: rest) w Hget Hpages Hclose).
  cbn [self wire]. split.
  - rewrite last_app, requests_last. reflexivity.
  - rewrite (walk_pages [] r' l' rest _).
    + cbn [self wire map concat app after_pages fold_left requests].
      by rewrite attach_payload_after_pages, attach_payload_idem.
    + cbn [self]. by rewrite after_pages_method, attach_payload_method.
    + constructor.
    + exact Hclose'.
Qed.

(** The same short page served twice: the second traversal asks again and
    yields the page again. *)
Lemma drained_query_runs_again_witness :
  let zones := [VDict {[ "id" := VInt 1 ]}; VDict {[ "id" := VInt 2 ]}] in
  let r := page_reply zones (mkInfo 2 50 1) in
  let q := API.get (API.mk (Session.mk 0 ∅ None)) ["zones"] in
  let again := prepare_request (session q) (request q) in
  all [r] (mkWorld q [again]) = (Ok zones, mkWorld q [again; again], []).
Proof.
  intros zones r q again.
  assert (Hclose : is_closing r zones).
  { right. exists (mkInfo 2 50 1). split; [apply page_reply_is_page|].
    unfold short. simpl. lia. }
  pose proof (drained_query_runs_again [] r zones r zones [] (mkWorld q [])
                eq_refl (List.Forall_nil _) Hclose Hclose) as H.
  exact (proj2 H).
Defined.

(** C8, as worded, fails: after [all] has drained the query, [all] on the
    same query object returns items again. *)
Lemma drained_query_yields_again :
  let zones := [VDict {[ "id" := VInt 1 ]}; VDict {[ "id" := VInt 2 ]}] in
  let r := page_reply zones (mkInfo 2 50 1) in
  let w := mkWorld (API.get (API.mk (Session.mk 0 ∅ None)) ["zones"]) [] in
  let '(first_run, w1, rest1) := all [r; r] w in
  first_run = Ok zones /\
  fst (fst (all rest1 w1)) = Ok zones /\
  fst (fst (all rest1 w1)) <> Ok [].
Proof. repeat split; [reflexivity .. | discriminate]. Qed.

(** ** What a traversal leaves untouched *)

Lemma same_but_page_refl (r : Request.t) : same_but_page r r.
Proof. by repeat split. Qed.

Lemma same_but_page_trans (r1 r2 r3 : Request.t) :
  same_but_page r1 r2 -> same_but_page r2 r3 -> same_but_page r1 r3.
Proof.
  intros (Hm & Hu & Hh & Hd & Hp) (Hm' & Hu' & Hh' & Hd' & Hp').
  repeat split; try congruence.
  intros key Hkey. by rewrite Hp', Hp.
Qed.

Lemma unchanged_but_page_refl (q : APIQuery.t) : unchanged_but_page q q.
Proof. repeat split. Qed.

Lemma turn_page_frame (data : pyval) (q q' : APIQuery.t) (r : Res bool) :
  turn_page data q = (r, q') -> unchanged_but_page q q'.
Proof.
  unfold turn_page. intros H.
  repeat (match type of H with
          | context [match ?x with _ => _ end] => destruct x
          | context [if ?x then _ else _] => destruct x
          end; try (injection H as <- <-; apply unchanged_but_page_refl)).
  injection H as <- <-. repeat split; simpl.
  intros key Hkey. by rewrite lookup_insert_ne.
Qed.

Lemma attach_payload_frame (q : APIQuery.t) :
  session (attach_payload q) = session q /\
  payload (attach_payload q) = payload q /\
  Request.method (request (attach_payload q)) = Request.method (request q) /\
  Request.url (request (attach_payload q)) = Request.url (request q) /\
  Request.params (request (attach_payload q)) = Request.params (request q).
Proof. unfold attach_payload. by destruct (truthy _). Qed.

(** Once the payload is in the descriptor, attaching it again changes
    nothing, also after [params['page']] has moved. *)
Lemma attach_payload_settled (q q' : APIQuery.t) :
  unchanged_but_page (attach_payload q) q' -> attach_payload q' = q'.
Proof.
  intros (Hs & Hp & _ & _ & Hh & Hd & _).
  destruct (attach_payload_frame q) as (_ & Hpq & _).
  rewrite Hpq in Hp. revert Hh Hd.
  unfold attach_payload. rewrite Hp.
  destruct (truthy (VDict (payload q))); [|done].
  destruct q' as [s' [m' u' h' p' d'] pl']. simpl in *. subst pl'.
  intros -> ->. unfold Request.set_body. simpl.
  by rewrite insert_insert_eq.
Qed.

Lemma worlds_yield_from (l : list pyval) (w : World) (pending : list reply)
    (k : gen) (w' : World) :
  w' ∈ worlds (yield_from l w pending k) -> w' = w \/ w' ∈ worlds k.
Proof.
  induction l as [|v l IH]; [by right|].
  change (yield_from (v :: l) w pending k)
    with (Yield v w pending (yield_from l w pending k)).
  simpl. rewrite elem_of_cons. intros [->|H]; [by left|by apply IH].
Qed.

Lemma round_worlds (pending : list reply) (w : World) (again : World -> gen)
    (w' : World) :
  w' ∈ worlds (round pending w again) ->
  w' = sent w \/
  exists q',
    unchanged_but_page (self (sent w)) q' /\
    (w' = mkWorld q' (wire (sent w)) \/
     w' ∈ worlds (again (mkWorld q' (wire (sent w))))).
Proof.
  unfold round.
  destruct (send pending w) as [[r w1] rest] eqn:Hsend.
  pose proof (send_world pending w) as [Hw1 _]. rewrite Hsend in Hw1.
  simpl in Hw1. subst w1.
  destruct (data <- r ;; result <- py_getitem data "result" ;;
            Ok (data, result)) as [[data result]|e].
  2: { simpl. rewrite list_elem_of_singleton. by left. }
  assert (Hafter : forall w0,
    w0 ∈ worlds (match turn_page data (self (sent w)) with
                 | (Raise e, q) => Throw e (mkWorld q (wire (sent w))) rest
                 | (Ok false, q) => Return (mkWorld q (wire (sent w))) rest
                 | (Ok true, q) => again (mkWorld q (wire (sent w)))
                 end) ->
    exists q',
      unchanged_but_page (self (sent w)) q' /\
      (w0 = mkWorld q' (wire (sent w)) \/
       w0 ∈ worlds (again (mkWorld q' (wire (sent w)))))).
  { intros w0.
    destruct (turn_page data (self (sent w))) as [res q'] eqn:Hturn.
    apply turn_page_frame in Hturn. intros Hin. exists q'.
    split; [exact Hturn|].
    destruct res as [[|]|e]; simpl in Hin;
      rewrite ?list_elem_of_singleton in Hin; auto. }
  destruct result; cbn [worlds].
  1-3: rewrite list_elem_of_singleton; by left.
  - intros Hin. apply worlds_yield_from in Hin as [Hin|Hin]; [by left|].
    right. by apply Hafter.
  - intros Hin. apply worlds_yield_from in Hin as [Hin|Hin]; [by left|].
    right. by apply Hafter.
  - rewrite elem_of_cons, list_elem_of_singleton. intros [Hin|Hin]; by left.
Qed.

Lemma unchanged_but_page_trans (q1 q2 q3 : APIQuery.t) :
  unchanged_but_page q1 q2 -> unchanged_but_page q2 q3 ->
  unchanged_but_page q1 q3.
Proof.
  intros (Hs & Hp & Hr) (Hs' & Hp' & Hr').
  repeat split; try congruence.
  1-4: destruct Hr as (? & ? & ? & ? & _), Hr' as (? & ? & ? & ? & _);
    congruence.
  apply (same_but_page_trans _ _ _ Hr Hr').
Qed.

(** Every world of a traversal: the query object differs from the one that
    sent the first request at most in [params['page']], and so does every
    request sent. *)
Lemma iter_frame (pending : list reply) (w w' : World) :
  w' ∈ worlds (iter pending w) ->
  unchanged_but_page (attach_payload (self w)) (self w') /\
  exists new,
    wire w' = (wire w ++ new)%list /\
    Forall (fun p =>
              via p = session (self w) /\
              same_but_page (request (attach_payload (self w))) (descriptor p))
           new.
Proof.
  revert w. induction pending as [|r rest IH]; intros w Hin.
  - rewrite iter_nil in Hin. simpl in Hin.
    apply list_elem_of_singleton in Hin as ->. split.
    + apply unchanged_but_page_refl.
    + eexists. split; [reflexivity|]. constructor; [|constructor].
      split; [apply attach_payload_frame | apply same_but_page_refl].
  - rewrite iter_cons in Hin.
    apply round_worlds in Hin as [-> | (q' & Hq' & [-> | Hin])].
    + split; [apply unchanged_but_page_refl|].
      eexists. split; [reflexivity|]. constructor; [|constructor].
      split; [apply attach_payload_frame | apply same_but_page_refl].
    + split; [exact Hq'|].
      eexists. split; [reflexivity|]. constructor; [|constructor].
      split; [apply attach_payload_frame | apply same_but_page_refl].
    + apply IH in Hin as (Hu & new & Hwire & Hnew).
      cbn [self wire] in Hu, Hwire, Hnew.
      rewrite (attach_payload_settled _ _ Hq') in Hu, Hnew.
      cbn [sent self wire] in Hq'. split.
      * exact (unchanged_but_page_trans _ _ _ Hq' Hu).
      * eexists. split.
        { rewrite Hwire. cbn [sent wire]. rewrite <- app_assoc. reflexivity. }
        constructor.
        { split; [apply attach_payload_frame | apply same_but_page_refl]. }
        eapply Forall_impl; [exact Hnew|].
        intros p [Hvia Hsame]. destruct Hq' as (Hs & _ & Hr). split.
        -- rewrite Hvia, Hs. apply attach_payload_frame.
        -- exact (same_but_page_trans _ _ _ Hr Hsame).
Qed.

(** C9.  While a query is traversed, the requests it sends and the
    descriptor it keeps differ from the first page request at most in
    [params['page']]: method, URL, headers, body and every other parameter,
    the filters among them, stay as they were; the session and the payload
    stay too. *)
Theorem iteration_moves_only_page (pending : list reply) (w w' : World) :
  w' ∈ worlds (iter pending w) ->
  let first_request := request (attach_payload (self w)) in
  session (self w') = session (self w) /\
  payload (self w') = payload (self w) /\
  same_but_page first_request (request (self w')) /\
  exists new,
    wire w' = (wire w ++ new)%list /\
    Forall (fun p => via p = session (self w) /\
                     same_but_page first_request (descriptor p)) new.
Proof.
  intros Hin first_request.
  apply iter_frame in Hin as ((Hs & Hp & Hr) & Hnew).
  destruct (attach_payload_frame (self w)) as (Hs' & Hp' & _).
  repeat split; try congruence; try apply Hr. exact Hnew.
Qed.

(** ** Programs: what the payload and the body can become *)

Lemma attach_payload_empty (q : APIQuery.t) :
  payload q = ∅ -> attach_payload q = q.
Proof. intros H. unfold attach_payload. by rewrite H. Qed.

Lemma list_of_world (g : gen) : snd (fst (list_of g)) ∈ worlds g.
Proof.
  induction g as [v w pending k IH|w pending|e w pending]; simpl.
  - destruct (list_of k) as [[r w'] rest]. simpl in *. by right.
  - by left.
  - by left.
Qed.

Lemma next_or_none_world (g : gen) : snd (fst (next_or_none g)) ∈ worlds g.
Proof. destruct g; simpl; by left. Qed.

Lemma same_but_page_body (r r' : Request.t) :
  same_but_page r r' -> same_body r r'.
Proof. intros (_ & _ & Hh & Hd & _). by split. Qed.

(** A traversal, whole or cut after its first item: the method and the
    payload stay, headers and body are those of the first request. *)
Lemma iter_effect (pending : list reply) (w w' : World) :
  w' ∈ worlds (iter pending w) ->
  Request.method (request (self w')) = Request.method (request (self w)) /\
  payload (self w') = payload (self w) /\
  same_body (request (attach_payload (self w))) (request (self w')) /\
  exists new,
    wire w' = (wire w ++ new)%list /\
    Forall (fun p => same_body (request (attach_payload (self w)))
                       (descriptor p)) new.
Proof.
  intros Hin. apply iter_frame in Hin as ((Hs & Hp & Hr) & new & Hw & Hnew).
  destruct (attach_payload_frame (self w)) as (_ & Hp' & Hm' & _).
  repeat split.
  - destruct Hr as (Hm & _). congruence.
  - congruence.
  - apply Hr.
  - apply Hr.
  - exists new. split; [exact Hw|].
    eapply Forall_impl; [exact Hnew|].
    intros p [_ Hsame]. by apply same_but_page_body.
Qed.

Lemma evolves_sent (w : World) : evolves w (sent w).
Proof.
  destruct (attach_payload_frame (self w)) as (_ & Hp & Hm & _).
  repeat split.
  - exact Hm.
  - by left.
  - right. by split.
  - eexists. split; [reflexivity|]. by repeat constructor.
Qed.

Lemma evolves_iter (pending : list reply) (w w' : World) :
  w' ∈ worlds (iter pending w) -> evolves w w'.
Proof.
  intros Hin. apply iter_effect in Hin as (Hm & Hp & Hb & Hnew).
  repeat split; [exact Hm | by left | by right | exact Hnew].
Qed.

Lemma evolves_same_request (w : World) (q' : APIQuery.t) :
  request q' = request (self w) ->
  payload q' = payload (self w) \/
    (Request.method (request (self w)) = "POST" \/
     Request.method (request (self w)) = "PUT") /\
    (exists kwargs, payload q' = kwargs ∪ payload (self w)) ->
  evolves w (mkWorld q' (wire w)).
Proof.
  intros Hr Hp. unfold evolves. cbn [self wire]. rewrite Hr.
  repeat split.
  - destruct Hp as [Hp|(Hm & kwargs & Hp)]; [by left|].
    right. split; [exact Hm|]. by exists kwargs.
  - by left; split.
  - exists []. by rewrite app_nil_r.
Qed.

(** Every operation keeps to [evolves]. *)
Lemma step_effect (o : op) (pending : list reply) (w : World) :
  evolves w (fst (step o pending w)).
Proof.
  destruct o as [kwargs|kwargs| | | |]; cbn [step].
  - unfold filter.
    destruct (String.eqb (Request.method (request (self w))) "GET");
      cbn [fst snd]; [|by apply evolves_same_request; [|left]].
    unfold evolves. cbn [self wire request payload Request.method
                         Request.set_params].
    repeat split; [by left | by left; split |].
    exists []. by rewrite app_nil_r.
  - unfold values.
    destruct (String.eqb (Request.method (request (self w))) "POST"
              || String.eqb (Request.method (request (self w))) "PUT")
      eqn:Hm; cbn [fst snd]; apply evolves_same_request; try done.
    + right. split; [|by exists kwargs].
      apply orb_true_iff in Hm as [Hm|Hm]; [left|right]; by apply method_is.
    + by left.
  - apply (evolves_iter pending). unfold first.
    pose proof (next_or_none_world (iter pending w)) as Hin.
    by destruct (next_or_none (iter pending w)) as [[r w0] rest].
  - apply (evolves_iter pending). unfold all.
    pose proof (list_of_world (iter pending w)) as Hin.
    by destruct (list_of (iter pending w)) as [[r w0] rest].
  - unfold execute. pose proof (send_world pending w) as [Hw _].
    destruct (send pending w) as [[r w0] rest]. cbn [fst snd] in *.
    subst w0. apply evolves_sent.
  - pose proof (send_world pending w) as [Hw _].
    destruct (send pending w) as [[r w0] rest]. cbn [fst snd] in *.
    subst w0. apply evolves_sent.
Qed.

Lemma run_cons (o : op) (ops : list op) (pending : list reply) (w : World) :
  run (o :: ops) pending w =
    run ops (snd (step o pending w)) (fst (step o pending w)).
Proof. simpl. by destruct (step o pending w). Qed.

Lemma same_body_trans (r1 r2 r3 : Request.t) :
  same_body r1 r2 -> same_body r2 r3 -> same_body r1 r3.
Proof. intros [Hh Hd] [Hh' Hd']. split; congruence. Qed.

(** On a GET or DELETE query the payload stays empty along any program, and
    headers and body stay those of the descriptor the query was made with. *)
Lemma run_keeps_payload_empty (req : Request.t) (ops : list op)
    (pending : list reply) (w : World) :
  Request.method req = "GET" \/ Request.method req = "DELETE" ->
  Request.method (request (self w)) = Request.method req ->
  payload (self w) = ∅ ->
  same_body req (request (self w)) ->
  Forall (fun p => same_body req (descriptor p)) (wire w) ->
  let w' := fst (run ops pending w) in
  payload (self w') = ∅ /\
  same_body req (request (self w')) /\
  Forall (fun p => same_body req (descriptor p)) (wire w').
Proof.
  intros Hreq. revert pending w.
  induction ops as [|o ops IH]; intros pending w Hm Hp Hb Hw; [done|].
  rewrite run_cons.
  destruct (step_effect o pending w) as (Hm' & Hp' & Hb' & new & Hw' & Hnew).
  rewrite (attach_payload_empty _ Hp) in Hb', Hnew.
  apply IH.
  - congruence.
  - destruct Hp' as [Hp'|[Hpost _]]; [congruence|].
    rewrite Hm in Hpost. destruct Hreq as [Hreq|Hreq], Hpost as [Hpost|Hpost];
      rewrite Hreq in Hpost; discriminate.
  - destruct Hb' as [Hb'|Hb']; exact (same_body_trans _ _ _ Hb Hb').
  - rewrite Hw'. apply Forall_app. split; [exact Hw|].
    eapply Forall_impl; [exact Hnew|].
    intros p Hpb. exact (same_body_trans _ _ _ Hb Hpb).
Qed.

(** C10.  A query made for GET or DELETE keeps an empty payload whatever is
    done with it ([values] is refused, nothing else writes the payload), so
    no [send] puts a JSON body or a [Content-Type] header on it: the
    descriptor it keeps and every request it sends have the headers and the
    body of the descriptor it was made with. *)
Theorem get_delete_never_carry_payload (s : Session.t) (req : Request.t)
    (ops : list op) (pending : list reply) :
  Request.method req = "GET" \/ Request.method req = "DELETE" ->
  let w' := fst (run ops pending (mkWorld (APIQuery.new s req) [])) in
  payload (self w') = ∅ /\
  same_body req (request (self w')) /\
  Forall (fun p => same_body req (descriptor p)) (wire w').
Proof.
  intros Hreq. apply (run_keeps_payload_empty req); try done.
Qed.

(** While the payload is empty, a query made by the endpoint builder has a
    bare descriptor. *)
Lemma run_keeps_bare (ops : list op) (pending : list reply) (w : World) :
  (payload (self w) = ∅ -> bare (request (self w))) ->
  let w' := fst (run ops pending w) in
  payload (self w') = ∅ -> bare (request (self w')).
Proof.
  revert pending w. induction ops as [|o ops IH]; intros pending w Hw; [done|].
  rewrite run_cons. apply IH.
  destruct (step_effect o pending w) as (_ & Hp' & Hb' & _).
  intros Hempty.
  assert (Hp : payload (self w) = ∅).
  { destruct Hp' as [Hp'|(_ & kwargs & Hp' & _)]; [congruence|].
    rewrite Hp' in Hempty. pose proof (map_positive_l _ _ Hempty) as ->.
    by rewrite (left_id_L ∅ (∪)) in Hempty. }
  rewrite (attach_payload_empty _ Hp) in Hb'.
  destruct (Hw Hp) as [Hh Hd].
  destruct Hb' as [[Hh' Hd']|[Hh' Hd']]; split; congruence.
Qed.

(** C7.  [send] with a non-empty payload puts on the wire a request with the
    header [Content-Type: application/json] and with [json.dumps(payload)]
    as its body.  With an empty payload it sends the descriptor as it is;
    for a query made by the endpoint builder, of any method and after any
    program, that descriptor has no body and no [Content-Type] header. *)
Theorem send_attaches_payload :
  (forall pending w,
     payload (self w) <> ∅ ->
     exists p,
       wire (snd (fst (send pending w))) = (wire w ++ [p])%list /\
       Request.headers (descriptor p) !! "Content-Type"
         = Some "application/json" /\
       Request.data (descriptor p) = Some (json_dumps (payload (self w)))) /\
  (forall pending w,
     payload (self w) = ∅ ->
     wire (snd (fst (send pending w))) =
       (wire w ++ [prepare_request (session (self w)) (request (self w))])%list) /\
  (forall api method path ops replies pending,
     let w := fst (run ops replies
                     (mkWorld (APIQuery.new (API.session api)
                                 (API.request method path)) [])) in
     payload (self w) = ∅ ->
     exists p,
       wire (snd (fst (send pending w))) = (wire w ++ [p])%list /\
       bare (descriptor p)).
Proof.
  split; [|split].
  - intros pending w Hp. destruct (send_world pending w) as [-> _].
    eexists. split; [reflexivity|]. cbn [descriptor].
    unfold attach_payload.
    assert (truthy (VDict (payload (self w))) = true) as ->.
    { simpl. by rewrite bool_decide_eq_false_2. }
    simpl. by rewrite lookup_insert_eq.
  - intros pending w Hp. destruct (send_world pending w) as [-> _].
    unfold sent. by rewrite (attach_payload_empty _ Hp).
  - intros api method path ops replies pending w Hp.
    destruct (send_world pending w) as [-> _].
    unfold sent. rewrite (attach_payload_empty _ Hp).
    eexists. split; [reflexivity|]. cbn [descriptor].
    apply (run_keeps_bare ops replies); [|exact Hp].
    intros _. by split.
Qed.

(** A PUT with [values(paused=True)]: one request, with the JSON body and
    the header. *)
Lemma send_attaches_payload_witness :
  let q := API.put (API.mk (Session.mk 0 ∅ None)) ["zones"; "ABC"] in
  let q' := snd (values {[ "paused" := VBool true ]} q) in
  exists p,
    wire (snd (fst (send [] (mkWorld q' []))))  = [p] /\
    Request.headers (descriptor p) !! "Content-Type"
      = Some "application/json" /\
    Request.data (descriptor p)
      = Some (json_dumps {[ "paused" := VBool true ]}).
Proof.
  intros q q'.
  apply (proj1 send_attaches_payload [] (mkWorld q' [])).
  intros H. apply (f_equal (fun m => m !! "paused")) in H.
  vm_compute in H. discriminate H.
Defined.

(** A filtered listing over two pages: the descriptor ends as it began, up
    to [params['page']]. *)
Lemma iteration_moves_only_page_witness :
  let q := snd (filter {[ "name" := VStr "example.org" ]}
                  (API.get (API.mk (Session.mk 0 ∅ None)) ["zones"])) in
  let pending := [page_reply [VInt 1; VInt 2] (mkInfo 2 2 1);
                  page_reply [VInt 3] (mkInfo 1 2 2)] in
  let w' := snd (fst (all pending (mkWorld q []))) in
  same_but_page (request q) (request (self w')) /\
  Request.params (request (self w')) !! "name" = Some (VStr "example.org").
Proof.
  intros q pending w'.
  pose proof (iteration_moves_only_page pending (mkWorld q []) w'
                (list_of_world (iter pending (mkWorld q []))))
    as (_ & _ & Hsame & _).
  split; [exact Hsame|].
  destruct Hsame as (_ & _ & _ & _ & Hparams).
  rewrite (Hparams "name"); [reflexivity | discriminate].
Defined.

(** A GET query put through [values], a traversal and a [send]. *)
Lemma get_delete_never_carry_payload_witness :
  let s := Session.mk 0 ∅ None in
  let req := API.request "GET" ["zones"] in
  let ops := [Values {[ "paused" := VBool true ]}; All; Send] in
  let pending := [page_reply [VInt 1] (mkInfo 1 20 1); object_reply ∅] in
  let w' := fst (run ops pending (mkWorld (APIQuery.new s req) [])) in
  payload (self w') = ∅ /\
  Forall (fun p => same_body req (descriptor p)) (wire w').
Proof.
  intros s req ops pending w'.
  pose proof (get_delete_never_carry_payload s req ops pending
                (or_introl eq_refl)) as (Hp & _ & Hw).
  split; [exact Hp | exact Hw].
Defined.

(** ** The API handle of an application context *)

(** C4 fails on the code.  [api] looks the handle up under the attribute
    [cloudflare_api] and stores the one it builds under the attribute [api]:
    in a context where nothing else set [cloudflare_api], the second access
    finds nothing and builds another handle on another session. *)
Theorem api_builds_a_handle_per_access (cf : CloudFlare.t)
    (ctx : CloudFlare.AppCtx) (n : nat) :
  CloudFlare.attrs ctx !! "cloudflare_api" = None ->
  exists h1 rt1 h2 rt2,
    CloudFlare.api cf (CloudFlare.mkRuntime (Some ctx) n) = (Ok h1, rt1) /\
    CloudFlare.api cf rt1 = (Ok h2, rt2) /\
    h1 <> h2 /\
    Session.ident (API.session h1) <> Session.ident (API.session h2) /\
    CloudFlare.top rt1
      = Some (CloudFlare.mkCtx (<["api" := h1]> (CloudFlare.attrs ctx))).
Proof.
  intros Hnone.
  eexists _, _, _, _. split; [|split].
  - unfold CloudFlare.api. cbn [CloudFlare.top]. rewrite Hnone. reflexivity.
  - unfold CloudFlare.api. cbn [CloudFlare.top CloudFlare.attrs].
    rewrite lookup_insert_ne by discriminate. rewrite Hnone. reflexivity.
  - cbn. repeat split.
    + intros [= H]. lia.
    + lia.
Qed.

(** A fresh application context, read twice. *)
Lemma api_builds_a_handle_per_access_witness :
  let cf := CloudFlare.mk (Some "me@example.org") (Some "secret") in
  exists h1 rt1 h2 rt2,
    CloudFlare.api cf (CloudFlare.mkRuntime (Some (CloudFlare.mkCtx ∅)) 0)
      = (Ok h1, rt1) /\
    CloudFlare.api cf rt1 = (Ok h2, rt2) /\
    h1 <> h2 /\
    Session.ident (API.session h1) <> Session.ident (API.session h2) /\
    CloudFlare.top rt1 = Some (CloudFlare.mkCtx (<["api" := h1]> ∅)).
Proof.
  intros cf.
  exact (api_builds_a_handle_per_access cf (CloudFlare.mkCtx ∅) 0 eq_refl).
Defined.

(** * Further properties of the code *)

(** ** The endpoint builder *)



(** X2.  What the four builders give: a GET query takes [filter] and refuses
    [values], POST and PUT queries take [values] and refuse [filter], a
    DELETE query refuses both; each starts with an empty payload on the
    session of the API object. *)
Theorem builders_and_guards (api : API.t) (args : list string)
    (kwargs : gmap string pyval) :
  (exists q, fst (filter kwargs (API.get api args)) = Ok q) /\
  fst (values kwargs (API.get api args)) = Raise AssertionError /\
  fst (filter kwargs (API.post api args)) = Raise AssertionError /\
  (exists q, fst (values kwargs (API.post api args)) = Ok q) /\
  fst (filter kwargs (API.put api args)) = Raise AssertionError /\
  (exists q, fst (values kwargs (API.put api args)) = Ok q) /\
  fst (filter kwargs (API.delete api args)) = Raise AssertionError /\
  fst (values kwargs (API.delete api args)) = Raise AssertionError /\
  Forall (fun q => payload q = ∅ /\ session q = API.session api)
    [API.get api args; API.post api args; API.put api args;
     API.delete api args].
Proof.
  repeat split; try reflexivity; try (eexists; reflexivity).
  repeat constructor.
Qed.

(** ** Chains of [filter] and of [values] *)

(** X3.  On a GET query two [filter] calls in a row are one [filter] call
    with the second set of keyword arguments laid over the first: for a
    name given twice the later value stays. *)
Theorem filter_chain (k1 k2 : gmap string pyval) (q : APIQuery.t) :
  Request.method (request q) = "GET" ->
  filter k2 (snd (filter k1 q)) = filter (k2 ∪ k1) q /\
  forall key v,
    k2 !! key = Some v ->
    Request.params (request (snd (filter k2 (snd (filter k1 q))))) !! key
      = Some v.
Proof.
  intros Hget. apply method_is in Hget.
  assert (Heq : filter k2 (snd (filter k1 q)) = filter (k2 ∪ k1) q).
  { unfold filter. rewrite Hget. cbn [snd request Request.method
      Request.set_params session payload Request.params Request.url
      Request.headers Request.data]. rewrite Hget.
    by rewrite (assoc_L (∪)). }
  split; [exact Heq|].
  intros key v Hkey. rewrite Heq. unfold filter. rewrite Hget. simpl.
  apply lookup_union_Some_l. by apply lookup_union_Some_l.
Qed.

Lemma filter_chain_witness :
  let q := API.get (API.mk (Session.mk 0 ∅ None)) ["zones"] in
  let k1 : gmap string pyval :=
    <["name" := VStr "example.org"]> {[ "status" := VStr "active" ]} in
  let k2 : gmap string pyval := {[ "name" := VStr "example.com" ]} in
  Request.params (request (snd (filter k2 (snd (filter k1 q))))) !! "name"
    = Some (VStr "example.com").
Proof.
  intros q k1 k2.
  apply (proj2 (filter_chain k1 k2 q eq_refl) "name" (VStr "example.com")).
  reflexivity.
Defined.

(** X4.  On a POST or PUT query two [values] calls in a row are one [values]
    call with the second set of keyword arguments laid over the first, and
    the descriptor is not touched before [send]. *)
Theorem values_chain (k1 k2 : gmap string pyval) (q : APIQuery.t) :
  Request.method (request q) = "POST" \/ Request.method (request q) = "PUT" ->
  values k2 (snd (values k1 q)) = values (k2 ∪ k1) q /\
  request (snd (values k2 (snd (values k1 q)))) = request q /\
  forall key v,
    k2 !! key = Some v ->
    payload (snd (values k2 (snd (values k1 q)))) !! key = Some v.
Proof.
  intros Hm.
  assert (Hb : String.eqb (Request.method (request q)) "POST"
               || String.eqb (Request.method (request q)) "PUT" = true).
  { apply orb_true_iff. destruct Hm as [Hm|Hm]; [left|right];
      by apply method_is. }
  assert (Heq : values k2 (snd (values k1 q)) = values (k2 ∪ k1) q).
  { unfold values. rewrite Hb. cbn [snd request session payload].
    rewrite Hb. by rewrite (assoc_L (∪)). }
  split; [exact Heq|]. rewrite Heq. unfold values. rewrite Hb. simpl.
  split; [done|].
  intros key v Hkey. apply lookup_union_Some_l. by apply lookup_union_Some_l.
Qed.

Lemma values_chain_witness :
  let q := API.put (API.mk (Session.mk 0 ∅ None)) ["zones"; "ABC"] in
  let k1 : gmap string pyval := {[ "paused" := VBool false ]} in
  let k2 : gmap string pyval := {[ "paused" := VBool true ]} in
  payload (snd (values k2 (snd (values k1 q)))) !! "paused"
    = Some (VBool true).
Proof.
  intros q k1 k2.
  apply (proj2 (proj2 (values_chain k1 k2 q (or_intror eq_refl)))
           "paused" (VBool true)).
  reflexivity.
Defined.

(** ** The shape of one round of the loop *)

(** Every round sends one request, yields some items in the world it then
    is in, and ends, raises or goes round again, the query object changed
    at most in [params['page']]. *)
Lemma round_shape (pending : list reply) (w : World) (again : World -> gen) :
  exists l q' tl,
    round pending w again = yield_from l (sent w) (tail pending) tl /\
    unchanged_but_page (self (sent w)) q' /\
    (tl = Return (mkWorld q' (wire (sent w))) (tail pending) \/
     (exists e, tl = Throw e (mkWorld q' (wire (sent w))) (tail pending)) \/
     tl = again (mkWorld q' (wire (sent w)))).
Proof.
  unfold round.
  destruct (send pending w) as [[r w1] rest] eqn:Hsend.
  pose proof (send_world pending w) as [Hw1 Hrest]. rewrite Hsend in Hw1, Hrest.
  cbn [fst snd] in Hw1, Hrest. subst w1 rest.
  destruct (data <- r ;; result <- py_getitem data "result" ;;
            Ok (data, result)) as [[data result]|e].
  2: { exists [], (self (sent w)), (Throw e (sent w) (tail pending)).
       split; [reflexivity|]. split; [apply unchanged_but_page_refl|].
       right. left. by exists e. }
  assert (Hafter : exists q' tl,
    match turn_page data (self (sent w)) with
    | (Raise e, q) => Throw e (mkWorld q (wire (sent w))) (tail pending)
    | (Ok false, q) => Return (mkWorld q (wire (sent w))) (tail pending)
    | (Ok true, q) => again (mkWorld q (wire (sent w)))
    end = tl /\
    unchanged_but_page (self (sent w)) q' /\
    (tl = Return (mkWorld q' (wire (sent w))) (tail pending) \/
     (exists e, tl = Throw e (mkWorld q' (wire (sent w))) (tail pending)) \/
     tl = again (mkWorld q' (wire (sent w))))).
  { destruct (turn_page data (self (sent w))) as [res q'] eqn:Hturn.
    apply turn_page_frame in Hturn. exists q'.
    destruct res as [[|]|e]; eexists; (split; [reflexivity|]);
      (split; [exact Hturn|]); eauto. }
  destruct Hafter as (q' & tl & Htl & Hq' & Hcases).
  destruct result as [| b | n | s | l | d].
  1-3: exists [], (self (sent w)), (Throw TypeError (sent w) (tail pending));
    (split; [reflexivity|]); (split; [apply unchanged_but_page_refl|]);
    right; left; by exists TypeError.
  - exists (characters s), q', tl. rewrite Htl.
    split; [reflexivity|]. split; [exact Hq' | exact Hcases].
  - exists l, q', tl. rewrite Htl.
    split; [reflexivity|]. split; [exact Hq' | exact Hcases].
  - exists [VDict d], (self (sent w)), (Return (sent w) (tail pending)).
    split; [reflexivity|]. split; [apply unchanged_but_page_refl|]. by left.
Qed.

Lemma worlds_yield_from_eq (l : list pyval) (w : World)
    (pending : list reply) (k : gen) :
  worlds (yield_from l w pending k) = (repeat w (length l) ++ worlds k)%list.
Proof.
  induction l as [|v l IH]; [done|].
  change (yield_from (v :: l) w pending k)
    with (Yield v w pending (yield_from l w pending k)).
  simpl. by rewrite IH.
Qed.

Lemma stops_yield_from (l : list pyval) (w : World) (pending : list reply)
    (k : gen) :
  stops (yield_from l w pending k)
    = (repeat (w, pending) (length l) ++ stops k)%list.
Proof.
  induction l as [|v l IH]; [done|].
  change (yield_from (v :: l) w pending k)
    with (Yield v w pending (yield_from l w pending k)).
  simpl. by rewrite IH.
Qed.

Lemma yielded_yield_from (l : list pyval) (w : World) (pending : list reply)
    (k : gen) :
  yielded (yield_from l w pending k) = (l ++ yielded k)%list.
Proof.
  induction l as [|v l IH]; [done|].
  change (yield_from (v :: l) w pending k)
    with (Yield v w pending (yield_from l w pending k)).
  simpl. by rewrite IH.
Qed.


(** ** [first] against [all] *)

(** X5.  [first] and [all] agree on the same replies: when [all] returns a
    non-empty list, [first] returns its head; when [all] returns the empty
    list, [first] returns [None] and leaves the same world; and when
    [first] raises, [all] raises the same exception from the same world. *)
Theorem first_agrees_with_all (pending : list reply) (w : World) :
  (forall x l,
     fst (fst (all pending w)) = Ok (x :: l) ->
     fst (fst (first pending w)) = Ok x) /\
  (fst (fst (all pending w)) = Ok [] ->
     first pending w
       = (Ok VNone, snd (fst (all pending w)), snd (all pending w))) /\
  (forall e,
     fst (fst (first pending w)) = Raise e ->
     all pending w
       = (Raise e, snd (fst (first pending w)), snd (first pending w))).
Proof.
  unfold all, first.
  destruct (iter pending w) as [v w1 p k|w1 p|e1 w1 p]; cbn [list_of next_or_none].
  - destruct (list_of k) as [[[tl|e] w2] rest]; cbn; repeat split;
      try discriminate; intros; congruence.
  - cbn. repeat split; try discriminate; done.
  - cbn. repeat split; try discriminate. intros e [= ->]. done.
Qed.

Lemma first_agrees_with_all_witness :
  let pending := [page_reply [VInt 1; VInt 2] (mkInfo 2 2 1);
                  page_reply [VInt 3] (mkInfo 1 2 2)] in
  let w := mkWorld (API.get (API.mk (Session.mk 0 ∅ None)) ["zones"]) [] in
  fst (fst (first pending w)) = Ok (VInt 1).
Proof.
  intros pending w.
  apply (proj1 (first_agrees_with_all pending w) (VInt 1) [VInt 2; VInt 3]).
  reflexivity.
Defined.




(** ** Paging and the method of the query *)

Lemma sent_eta (w : World) : mkWorld (self (sent w)) (wire (sent w)) = sent w.
Proof. reflexivity. Qed.

(** X7.  Paging is guarded by an assertion on the method, whatever the page
    looks like: on a query that is not GET, a sequence that comes with a
    [result_info] other than [None] makes [all] fail the assertion once its
    items are through, so [all] returns none of them; [first] stops at the
    first item, before the assertion, and returns it. *)
Theorem paging_asserts_get (r : reply) (env : gmap string pyval)
    (l : list pyval) (v : pyval) (rest : list reply) (w : World) :
  Request.method (request (self w)) <> "GET" ->
  envelope r env ->
  env !! "result" = Some (VList l) ->
  env !! "result_info" = Some v ->
  v <> VNone ->
  all (r :: rest) w = (Raise AssertionError, sent w, rest) /\
  first (r :: rest) w =
    match l with
    | x :: _ => (Ok x, sent w, rest)
    | [] => (Raise AssertionError, sent w, rest)
    end.
Proof.
  intros Hm Henv Hres Hinfo Hv.
  assert (Hturn : turn_page (VDict env) (self (sent w))
                  = (Raise AssertionError, self (sent w))).
  { unfold turn_page. simpl py_get. rewrite Hinfo.
    assert (String.eqb (Request.method (request (self (sent w)))) "GET"
            = false) as ->.
    { apply method_is_not. cbn [sent self]. by rewrite attach_payload_method. }
    by destruct v. }
  assert (Hiter : iter (r :: rest) w
                  = yield_from l (sent w) rest
                      (Throw AssertionError (sent w) rest)).
  { rewrite iter_cons. unfold round.
    rewrite (send_envelope _ _ _ _ Henv). simpl bind. rewrite Hres.
    cbv zeta. cbn [bind]. by rewrite Hturn, sent_eta. }
  split.
  - unfold all. rewrite Hiter, list_of_yield_from. reflexivity.
  - unfold first. rewrite Hiter. by destruct l.
Qed.

(** A POST answered with a short page of two records. *)
Lemma paging_asserts_get_witness :
  let r := page_reply [VInt 1; VInt 2] (mkInfo 2 20 1) in
  let w := mkWorld (API.post (API.mk (Session.mk 0 ∅ None)) ["zones"]) [] in
  all [r] w = (Raise AssertionError, sent w, []) /\
  first [r] w = (Ok (VInt 1), sent w, []).
Proof.
  intros r w.
  eapply (paging_asserts_get r _ [VInt 1; VInt 2] _ [] w).
  - discriminate.
  - eexists _, (VBool true). repeat split; reflexivity.
  - reflexivity.
  - reflexivity.
  - discriminate.
Defined.

(** ** Results that are not a sequence of objects *)

Lemma iter_envelope (r : reply) (env : gmap string pyval)
    (rest : list reply) (w : World) :
  envelope r env ->
  iter (r :: rest) w =
    match env !! "result" with
    | None => Throw (KeyError "result") (sent w) rest
    | Some result =>
        let after_page :=
          match turn_page (VDict env) (self (sent w)) with
          | (Raise e, q) => Throw e (mkWorld q (wire (sent w))) rest
          | (Ok false, q) => Return (mkWorld q (wire (sent w))) rest
          | (Ok true, q) => iter rest (mkWorld q (wire (sent w)))
          end in
        match result with
        | VDict _ => Yield result (sent w) rest (Return (sent w) rest)
        | VList l => yield_from l (sent w) rest after_page
        | VStr s => yield_from (characters s) (sent w) rest after_page
        | VNone | VBool _ | VInt _ => Throw TypeError (sent w) rest
        end
    end.
Proof.
  intros Henv. rewrite iter_cons. unfold round.
  rewrite (send_envelope _ _ _ _ Henv). simpl bind.
  by destruct (env !! "result").
Qed.

(** X8.  A successful envelope without a [result] entry makes [all] and
    [first] raise [KeyError]; one whose [result] is [None], a boolean or a
    number makes them raise [TypeError].  Either way one request was sent
    and the replies after it are left alone. *)
Theorem result_missing_or_scalar (r : reply) (env : gmap string pyval)
    (rest : list reply) (w : World) :
  envelope r env ->
  (env !! "result" = None ->
     all (r :: rest) w = (Raise (KeyError "result"), sent w, rest) /\
     first (r :: rest) w = (Raise (KeyError "result"), sent w, rest)) /\
  (forall result,
     env !! "result" = Some result ->
     result = VNone \/ (exists b, result = VBool b)
       \/ (exists n, result = VInt n) ->
     all (r :: rest) w = (Raise TypeError, sent w, rest) /\
     first (r :: rest) w = (Raise TypeError, sent w, rest)).
Proof.
  intros Henv. unfold all, first. rewrite (iter_envelope _ _ _ _ Henv). split.
  - by intros ->.
  - intros result -> [-> | [[b ->] | [n ->]]]; done.
Qed.

(** A DELETE answered with [result: null]. *)
Lemma result_missing_or_scalar_witness :
  let env : gmap string pyval :=
    <["success" := VBool true]> (<["result" := VNone]> ∅) in
  let r := Some (Response.mk 200 "" (Some (VDict env))) in
  let w := mkWorld (API.delete (API.mk (Session.mk 0 ∅ None)) ["zones"; "ABC"])
             [] in
  all [r] w = (Raise TypeError, sent w, []).
Proof.
  intros env r w.
  assert (Henv : envelope r env).
  { eexists _, (VBool true). repeat split; reflexivity. }
  exact (proj1 (proj2 (result_missing_or_scalar r env [] w Henv)
                  VNone eq_refl (or_introl eq_refl))).
Defined.



(** X10.  [result_info] is read as far as needed and no further: [count] and
    [per_page] always, [page] only when another request is due.  A short
    page without [page] closes the traversal, a full page without [page]
    ends it in [KeyError], after its items. *)
Theorem page_number_read_when_needed (r : reply) (env info : gmap string pyval)
    (l : list pyval) (c pp : Z) (rest : list reply) (w : World) :
  Request.method (request (self w)) = "GET" ->
  envelope r env ->
  env !! "result" = Some (VList l) ->
  env !! "result_info" = Some (VDict info) ->
  info !! "count" = Some (VInt c) ->
  info !! "per_page" = Some (VInt pp) ->
  info !! "page" = None ->
  all (r :: rest) w =
    (if (c <? pp)%Z then Ok l else Raise (KeyError "page"), sent w, rest) /\
  yielded (iter (r :: rest) w) = l.
Proof.
  intros Hget Henv Hres Hinfo Hc Hpp Hp.
  assert (Hturn : turn_page (VDict env) (self (sent w)) =
                  (if (c <? pp)%Z then Ok false else Raise (KeyError "page"),
                   self (sent w))).
  { unfold turn_page. simpl py_get. rewrite Hinfo.
    assert (String.eqb (Request.method (request (self (sent w)))) "GET"
            = true) as ->.
    { apply method_is. cbn [sent self]. by rewrite attach_payload_method. }
    simpl. rewrite Hc, Hpp. simpl. destruct (c <? pp)%Z; [done|].
    by rewrite Hp. }
  unfold all. rewrite (iter_envelope _ _ _ _ Henv), Hres. cbv zeta.
  rewrite Hturn, sent_eta. split.
  - rewrite list_of_yield_from. destruct (c <? pp)%Z; simpl; [|done].
    by rewrite app_nil_r.
  - rewrite yielded_yield_from. destruct (c <? pp)%Z; simpl;
      by rewrite app_nil_r.
Qed.

Lemma page_number_read_when_needed_witness :
  let info : gmap string pyval :=
    <["count" := VInt 1]> (<["per_page" := VInt 20]> ∅) in
  let env : gmap string pyval :=
    <["success" := VBool true]>
      (<["result" := VList [VInt 7]]> (<["result_info" := VDict info]> ∅)) in
  let r := Some (Response.mk 200 "" (Some (VDict env))) in
  let w := mkWorld (API.get (API.mk (Session.mk 0 ∅ None)) ["zones"]) [] in
  all [r] w = (Ok [VInt 7], sent w, []).
Proof.
  intros info env r w.
  assert (Henv : envelope r env).
  { eexists _, (VBool true). repeat split; reflexivity. }
  exact (proj1 (page_number_read_when_needed r env info [VInt 7] 1 20 [] w
                  eq_refl Henv eq_refl eq_refl eq_refl eq_refl eq_refl)).
Defined.

(** ** [execute] *)

(** X11.  [execute] sends one request and asks nothing of the envelope but
    its [success]: whatever [result] and [result_info] hold, and also when
    [result] is missing, it returns, with one reply taken; on a reply that
    fails it raises what [send] raises. *)
Theorem execute_once (r : reply) (rest : list reply) (w : World) :
  (forall env, envelope r env ->
     execute (r :: rest) w = (Ok tt, sent w, rest)) /\
  (forall e, fails r e ->
     execute (r :: rest) w = (Raise e, sent w, rest)).
Proof.
  split.
  - intros env Henv. unfold execute.
    by rewrite (send_envelope _ _ _ _ Henv).
  - intros e He. unfold execute, send. destruct r as [response|].
    + simpl in He. by rewrite He.
    + simpl in He. by subst e.
Qed.

(** A PUT answered with a full page: no second request. *)
Lemma execute_once_witness :
  let r := page_reply [VInt 1; VInt 2] (mkInfo 2 2 1) in
  let w := mkWorld (API.put (API.mk (Session.mk 0 ∅ None)) ["zones"; "ABC"])
             [] in
  execute [r; r] w = (Ok tt, sent w, [r]).
Proof.
  intros r w.
  destruct (page_reply_is_page [VInt 1; VInt 2] (mkInfo 2 2 1))
    as (env & Henv & _).
  exact (proj1 (execute_once r [r] w) env Henv).
Defined.

(** ** Traversals over full pages *)

Lemma advance_method (w : World) (infos : list page_info) :
  Request.method (request (self (advance w infos)))
    = Request.method (request (self w)).
Proof.
  revert w. induction infos as [|i infos IH]; intros w; [done|].
  cbn [advance]. rewrite IH. cbn [with_page request Request.method
    Request.set_params sent self]. apply attach_payload_method.
Qed.

Lemma advance_wire_length (w : World) (infos : list page_info) :
  length (wire (advance w infos)) = (length (wire w) + length infos)%nat.
Proof.
  revert w. induction infos as [|i infos IH]; intros w; simpl; [lia|].
  rewrite IH. cbn [wire]. rewrite length_app. simpl. lia.
Qed.

Lemma iter_full_page (p : full_page) (rest : list reply) (w : World) :
  Request.method (request (self w)) = "GET" ->
  is_full_page p ->
  iter (answer p :: rest) w =
    yield_from (items p) (sent w) rest (iter rest (advance w [info p])).
Proof.
  intros Hget [Hpage Hfull]. rewrite iter_cons.
  rewrite (round_page _ _ _ _ _ _ Hpage Hget). unfold full in Hfull.
  by destruct (Z.ltb_spec (count (info p)) (per_page (info p))); [lia|].
Qed.

(** X12.  Full pages compose: a GET traversal that starts on full pages is
    the traversal of what follows them, run from the world these pages
    leave (one request sent and [params['page']] moved for each), with the
    items of the pages in front.  An exception raised later leaves [all]
    without any of them. *)
Theorem all_resumes_after_full_pages (pages : list full_page)
    (rest : list reply) (w : World) :
  Request.method (request (self w)) = "GET" ->
  Forall is_full_page pages ->
  let w1 := advance w (map info pages) in
  all (map answer pages ++ rest) w =
    (let '(r, w', rest') := all rest w1 in
     (l <- r ;; Ok (concat (map items pages) ++ l)%list, w', rest')) /\
  length (wire w1) = (length (wire w) + length pages)%nat.
Proof.
  intros Hget Hpages w1. split.
  2: { unfold w1. by rewrite advance_wire_length, length_map. }
  unfold w1. clear w1. revert w Hget.
  induction Hpages as [|p pages Hp _ IH]; intros w Hget.
  - simpl. by destruct (all rest w) as [[[l|e] w'] rest'].
  - cbn [map app concat]. unfold all.
    rewrite (iter_full_page p _ w Hget Hp), list_of_yield_from.
    unfold all in IH. rewrite IH.
    + cbn [advance].
      destruct (list_of (iter rest _)) as [[[l|e] w'] rest']; simpl; [|done].
      by rewrite app_assoc.
    + by rewrite (advance_method w [info p]).
Qed.

Lemma all_resumes_after_full_pages_witness :
  let p := mkFull (page_reply [VInt 1; VInt 2] (mkInfo 2 2 1))
             [VInt 1; VInt 2] (mkInfo 2 2 1) in
  let rest := [object_reply {[ "id" := VInt 3 ]}] in
  let w := mkWorld (API.get (API.mk (Session.mk 0 ∅ None)) ["zones"]) [] in
  fst (fst (all (answer p :: rest) w))
    = Ok [VInt 1; VInt 2; VDict {[ "id" := VInt 3 ]}].
Proof.
  intros p rest w.
  assert (Hp : Forall is_full_page [p]).
  { repeat constructor; [apply page_reply_is_page | unfold full; simpl; lia]. }
  pose proof (proj1 (all_resumes_after_full_pages [p] rest w eq_refl Hp)) as H.
  exact (f_equal (fun x => fst (fst x)) H).
Defined.

Lemma iter_fails (r : reply) (e : exn) (rest : list reply) (w : World) :
  fails r e -> iter (r :: rest) w = Throw e (sent w) rest.
Proof.
  intros He. rewrite iter_cons. unfold round, send.
  destruct r as [response|]; simpl in He.
  - by rewrite He.
  - by subst e.
Qed.

Lemma yielded_over_full_pages (pages : list full_page) (rest : list reply)
    (w : World) :
  Request.method (request (self w)) = "GET" ->
  Forall is_full_page pages ->
  yielded (iter (map answer pages ++ rest) w) =
    (concat (map items pages)
     ++ yielded (iter rest (advance w (map info pages))))%list.
Proof.
  intros Hget Hpages. revert w Hget.
  induction Hpages as [|p pages Hp _ IH]; intros w Hget; [done|].
  cbn [map app concat].
  rewrite (iter_full_page p _ w Hget Hp), yielded_yield_from, IH.
  - by rewrite app_assoc.
  - by rewrite (advance_method w [info p]).
Qed.

(** X13.  A failure in mid-stream: when full pages are followed by a reply
    on which [send] raises, the generator has yielded the items of these
    pages before it raises, and [all] raises the same exception and returns
    none of them; one request went out per page and one for the failed
    reply. *)
Theorem failure_in_mid_stream (pages : list full_page) (r : reply) (e : exn)
    (rest : list reply) (w : World) :
  Request.method (request (self w)) = "GET" ->
  Forall is_full_page pages ->
  fails r e ->
  let w1 := advance w (map info pages) in
  yielded (iter (map answer pages ++ r :: rest) w) = concat (map items pages) /\
  all (map answer pages ++ r :: rest) w = (Raise e, sent w1, rest) /\
  length (wire (sent w1)) = (length (wire w) + S (length pages))%nat.
Proof.
  intros Hget Hpages He w1. split; [|split].
  - rewrite (yielded_over_full_pages _ _ _ Hget Hpages).
    rewrite (iter_fails _ _ _ _ He). simpl. by rewrite app_nil_r.
  - rewrite (proj1 (all_resumes_after_full_pages pages _ w Hget Hpages)).
    unfold all. by rewrite (iter_fails _ _ _ _ He).
  - unfold sent. cbn [wire]. rewrite length_app. unfold w1.
    rewrite advance_wire_length, length_map. simpl. lia.
Qed.

(** A full page, then a response that says [success: false]. *)
Lemma failure_in_mid_stream_witness :
  let p := mkFull (page_reply [VInt 1; VInt 2] (mkInfo 2 2 1))
             [VInt 1; VInt 2] (mkInfo 2 2 1) in
  let bad := Response.mk 500 "" (Some (VDict {[ "success" := VBool false ]})) in
  let w := mkWorld (API.get (API.mk (Session.mk 0 ∅ None)) ["zones"]) [] in
  yielded (iter [answer p; Some bad] w) = [VInt 1; VInt 2] /\
  fst (fst (all [answer p; Some bad] w)) = Raise (APIError bad).
Proof.
  intros p bad w.
  assert (Hp : Forall is_full_page [p]).
  { repeat constructor; [apply page_reply_is_page | unfold full; simpl; lia]. }
  pose proof (failure_in_mid_stream [p] (Some bad) (APIError bad) [] w
                eq_refl Hp eq_refl) as (Hy & Hall & _).
  split; [exact Hy|]. exact (f_equal (fun x => fst (fst x)) Hall).
Defined.

(** X14.  [first] looks past empty pages: over full pages that hold no item
    it sends a request for each and gives what [first] gives on the replies
    after them. *)
Theorem first_skips_empty_pages (pages : list full_page) (rest : list reply)
    (w : World) :
  Request.method (request (self w)) = "GET" ->
  Forall is_full_page pages ->
  Forall (fun p => items p = []) pages ->
  first (map answer pages ++ rest) w
    = first rest (advance w (map info pages)).
Proof.
  intros Hget Hpages Hempty. revert w Hget Hempty.
  induction Hpages as [|p pages Hp _ IH]; intros w Hget Hempty; [done|].
  apply Forall_cons in Hempty as [Hnil Hempty].
  cbn [map app]. unfold first.
  rewrite (iter_full_page p _ w Hget Hp), Hnil.
  change (yield_from [] (sent w) (map answer pages ++ rest)
            (iter (map answer pages ++ rest) (advance w [info p])))
    with (iter (map answer pages ++ rest) (advance w [info p])).
  unfold first in IH. rewrite IH; [done| |done].
  by rewrite (advance_method w [info p]).
Qed.

(** An empty page with [count = per_page = 0], then a record. *)
Lemma first_skips_empty_pages_witness :
  let p := mkFull (page_reply [] (mkInfo 0 0 1)) [] (mkInfo 0 0 1) in
  let rest := [page_reply [VInt 5] (mkInfo 1 20 2)] in
  let w := mkWorld (API.get (API.mk (Session.mk 0 ∅ None)) ["zones"]) [] in
  fst (fst (first (answer p :: rest) w)) = Ok (VInt 5).
Proof.
  intros p rest w.
  assert (Hp : Forall is_full_page [p]).
  { repeat constructor; [apply page_reply_is_page | unfold full; simpl; lia]. }
  assert (Hempty : Forall (fun p => items p = []) [p]).
  { by repeat constructor. }
  pose proof (first_skips_empty_pages [p] rest w eq_refl Hp Hempty) as H.
  exact (f_equal (fun x => fst (fst x)) H).
Defined.

(** ** Programs: requests against replies, the endpoint, the payload *)

Lemma list_of_stop (g : gen) : (snd (fst (list_of g)), snd (list_of g)) ∈ stops g.
Proof.
  induction g as [v w pending k IH|w pending|e w pending]; simpl.
  - destruct (list_of k) as [[r w'] rest]. simpl in *. by right.
  - by left.
  - by left.
Qed.

Lemma next_or_none_stop (g : gen) :
  (snd (fst (next_or_none g)), snd (next_or_none g)) ∈ stops g.
Proof. destruct g; simpl; by left. Qed.

(** Requests and replies stay in step along a traversal. *)
Lemma iter_accounting (pending : list reply) (w w' : World)
    (rest' : list reply) :
  (w', rest') ∈ stops (iter pending w) ->
  exists used new,
    pending = (used ++ rest')%list /\
    wire w' = (wire w ++ new)%list /\
    (length used <= length new)%nat /\
    (rest' <> [] -> length new = length used).
Proof.
  revert w. induction pending as [|r rest IH]; intros w Hin.
  - rewrite iter_nil in Hin. simpl in Hin.
    apply list_elem_of_singleton in Hin as [= -> ->].
    exists [], [prepare_request (session (attach_payload (self w)))
                                (request (attach_payload (self w)))].
    repeat split; simpl; try done; lia.
  - rewrite iter_cons in Hin.
    destruct (round_shape (r :: rest) w (iter rest))
      as (l & q' & tl & Hshape & _ & Htl).
    rewrite Hshape, stops_yield_from in Hin. cbn [tail] in Hin, Htl.
    assert (Hhere : forall q0,
      exists used new,
        r :: rest = (used ++ rest)%list /\
        wire (mkWorld q0 (wire (sent w))) = (wire w ++ new)%list /\
        (length used <= length new)%nat /\
        (rest <> [] -> length new = length used)).
    { intros q0. exists [r], [prepare_request (session (attach_payload (self w)))
                                  (request (attach_payload (self w)))].
      repeat split; simpl; try done; lia. }
    apply elem_of_app in Hin as [Hin|Hin].
    + apply list_elem_of_In, repeat_spec in Hin. injection Hin as -> ->.
      rewrite <- sent_eta. apply Hhere.
    + destruct Htl as [->|[[e ->]| ->]].
      * simpl in Hin. apply list_elem_of_singleton in Hin as [= -> ->].
        apply Hhere.
      * simpl in Hin. apply list_elem_of_singleton in Hin as [= -> ->].
        apply Hhere.
      * apply IH in Hin as (used & new & Hused & Hnew & Hle & Heq).
        cbn [wire] in Hnew.
        exists (r :: used), (prepare_request (session (attach_payload (self w)))
                               (request (attach_payload (self w))) :: new).
        repeat split.
        -- simpl. by rewrite Hused.
        -- rewrite Hnew. unfold sent. cbn [wire]. by rewrite <- app_assoc.
        -- simpl. lia.
        -- intros Hne. simpl. rewrite (Heq Hne). done.
Qed.

Lemma step_accounting (o : op) (pending : list reply) (w : World) :
  exists used new,
    pending = (used ++ snd (step o pending w))%list /\
    wire (fst (step o pending w)) = (wire w ++ new)%list /\
    (length used <= length new)%nat /\
    (snd (step o pending w) <> [] -> length new = length used).
Proof.
  assert (Hsend : exists used new,
    pending = (used ++ snd (send pending w))%list /\
    wire (snd (fst (send pending w))) = (wire w ++ new)%list /\
    (length used <= length new)%nat /\
    (snd (send pending w) <> [] -> length new = length used)).
  { destruct (send_world pending w) as [-> ->].
    destruct pending as [|r rest].
    - exists [], [prepare_request (session (attach_payload (self w)))
                                  (request (attach_payload (self w)))].
      repeat split; simpl; try done; lia.
    - exists [r], [prepare_request (session (attach_payload (self w)))
                                   (request (attach_payload (self w)))].
      repeat split; simpl; try done; lia. }
  destruct o as [kwargs|kwargs| | | |]; cbn [step].
  1-2: exists [], []; cbn [fst snd wire]; rewrite app_nil_r;
    repeat split; simpl; try done; lia.
  - unfold first.
    pose proof (next_or_none_stop (iter pending w)) as Hin.
    destruct (next_or_none (iter pending w)) as [[r w0] rest].
    by apply iter_accounting in Hin.
  - unfold all.
    pose proof (list_of_stop (iter pending w)) as Hin.
    destruct (list_of (iter pending w)) as [[r w0] rest].
    by apply iter_accounting in Hin.
  - unfold execute. by destruct (send pending w) as [[r w0] rest].
  - by destruct (send pending w) as [[r w0] rest].
Qed.

(** X15.  Requests and replies stay in step along any program: the replies
    left are a tail of the replies given, the log of requests only grows,
    and as long as a reply is left, as many requests were sent as replies
    were taken (once the replies have run out, more requests than replies). *)
Theorem requests_match_replies (ops : list op) (pending : list reply)
    (w : World) :
  exists used new,
    pending = (used ++ snd (run ops pending w))%list /\
    wire (fst (run ops pending w)) = (wire w ++ new)%list /\
    (length used <= length new)%nat /\
    (snd (run ops pending w) <> [] -> length new = length used).
Proof.
  revert pending w. induction ops as [|o ops IH]; intros pending w.
  - exists [], []. simpl. rewrite app_nil_r. repeat split; simpl; try done; lia.
  - rewrite run_cons.
    destruct (step_accounting o pending w) as (u1 & n1 & Hu1 & Hn1 & Hle1 & He1).
    destruct (IH (snd (step o pending w)) (fst (step o pending w)))
      as (u2 & n2 & Hu2 & Hn2 & Hle2 & He2).
    exists (u1 ++ u2)%list, (n1 ++ n2)%list. repeat split.
    + rewrite <- app_assoc, <- Hu2. exact Hu1.
    + rewrite Hn2, Hn1. by rewrite app_assoc.
    + rewrite !length_app. lia.
    + intros Hne. rewrite !length_app. rewrite (He2 Hne).
      rewrite He1; [done|]. rewrite Hu2. intros Hnil.
      apply app_eq_nil in Hnil as [_ Hnil]. by apply Hne.
Qed.

Lemma same_endpoint_refl (q : APIQuery.t) : same_endpoint q q.
Proof. by repeat split. Qed.

Lemma same_endpoint_trans (q1 q2 q3 : APIQuery.t) :
  same_endpoint q1 q2 -> same_endpoint q2 q3 -> same_endpoint q1 q3.
Proof. intros (? & ? & ?) (? & ? & ?). repeat split; congruence. Qed.

Lemma same_endpoint_attach (q : APIQuery.t) :
  same_endpoint q (attach_payload q).
Proof.
  destruct (attach_payload_frame q) as (Hs & _ & Hm & Hu & _). by repeat split.
Qed.

Lemma sent_for_endpoint (q q' : APIQuery.t) (p : PreparedRequest) :
  same_endpoint q q' -> sent_for q' p -> sent_for q p.
Proof. intros (? & ? & ?) (? & ? & ?). repeat split; congruence. Qed.

Lemma iter_endpoint (pending : list reply) (w w' : World) :
  w' ∈ worlds (iter pending w) ->
  same_endpoint (self w) (self w') /\
  exists new,
    wire w' = (wire w ++ new)%list /\ Forall (sent_for (self w)) new.
Proof.
  intros Hin. apply iter_frame in Hin as ((Hs & _ & Hr) & new & Hw & Hnew).
  destruct Hr as (Hm & Hu & _).
  destruct (attach_payload_frame (self w)) as (Hs' & _ & Hm' & Hu' & _).
  split; [repeat split; congruence|].
  exists new. split; [exact Hw|].
  eapply Forall_impl; [exact Hnew|].
  intros p (Hvia & Hpm & Hpu & _). repeat split; congruence.
Qed.

Lemma step_endpoint (o : op) (pending : list reply) (w : World) :
  same_endpoint (self w) (self (fst (step o pending w))) /\
  exists new,
    wire (fst (step o pending w)) = (wire w ++ new)%list /\
    Forall (sent_for (self w)) new.
Proof.
  assert (Hsent : same_endpoint (self w) (self (sent w)) /\
    exists new, wire (sent w) = (wire w ++ new)%list /\
                Forall (sent_for (self w)) new).
  { split; [apply same_endpoint_attach|].
    eexists. split; [reflexivity|]. constructor; [|constructor].
    apply (sent_for_endpoint _ _ _ (same_endpoint_attach (self w))).
    by repeat split. }
  destruct o as [kwargs|kwargs| | | |]; cbn [step].
  - unfold filter.
    destruct (String.eqb (Request.method (request (self w))) "GET");
      cbn [fst snd self wire]; (split; [by repeat split|]);
      exists []; by rewrite app_nil_r.
  - unfold values.
    destruct (String.eqb (Request.method (request (self w))) "POST"
              || String.eqb (Request.method (request (self w))) "PUT");
      cbn [fst snd self wire]; (split; [by repeat split|]);
      exists []; by rewrite app_nil_r.
  - apply (iter_endpoint pending). unfold first.
    pose proof (next_or_none_world (iter pending w)) as Hin.
    by destruct (next_or_none (iter pending w)) as [[r w0] rest].
  - apply (iter_endpoint pending). unfold all.
    pose proof (list_of_world (iter pending w)) as Hin.
    by destruct (list_of (iter pending w)) as [[r w0] rest].
  - unfold execute. pose proof (send_world pending w) as [Hw _].
    destruct (send pending w) as [[r w0] rest]. cbn [fst snd] in *.
    by subst w0.
  - pose proof (send_world pending w) as [Hw _].
    destruct (send pending w) as [[r w0] rest]. cbn [fst snd] in *.
    by subst w0.
Qed.

(** X16.  A query object stays with its endpoint: along any program the
    session, the method and the URL of the descriptor stay as they were,
    and every request sent goes through that session, with that method, to
    that URL. *)
Theorem endpoint_is_fixed (ops : list op) (pending : list reply) (w : World) :
  same_endpoint (self w) (self (fst (run ops pending w))) /\
  exists new,
    wire (fst (run ops pending w)) = (wire w ++ new)%list /\
    Forall (sent_for (self w)) new.
Proof.
  revert pending w. induction ops as [|o ops IH]; intros pending w.
  - split; [apply same_endpoint_refl|]. exists []. simpl.
    by rewrite app_nil_r.
  - rewrite run_cons.
    destruct (step_endpoint o pending w) as (He1 & n1 & Hn1 & Hf1).
    destruct (IH (snd (step o pending w)) (fst (step o pending w)))
      as (He2 & n2 & Hn2 & Hf2).
    split; [exact (same_endpoint_trans _ _ _ He1 He2)|].
    exists (n1 ++ n2)%list. split.
    + rewrite Hn2, Hn1. by rewrite app_assoc.
    + apply Forall_app. split; [exact Hf1|].
      eapply Forall_impl; [exact Hf2|].
      intros p. by apply sent_for_endpoint.
Qed.

(** X17.  The payload only takes entries in: along any program the payload
    is the initial one with keyword arguments laid over it, so a name that
    is in the payload stays in it. *)
Theorem payload_only_grows (ops : list op) (pending : list reply) (w : World) :
  (exists kwargs,
     payload (self (fst (run ops pending w))) = kwargs ∪ payload (self w)) /\
  forall key,
    is_Some (payload (self w) !! key) ->
    is_Some (payload (self (fst (run ops pending w))) !! key).
Proof.
  assert (Hgrow : exists kwargs,
            payload (self (fst (run ops pending w)))
              = kwargs ∪ payload (self w)).
  { revert pending w. induction ops as [|o ops IH]; intros pending w.
    - exists ∅. simpl. by rewrite (left_id_L ∅ (∪)).
    - rewrite run_cons.
      destruct (IH (snd (step o pending w)) (fst (step o pending w)))
        as [k2 Hk2].
      destruct (step_effect o pending w) as (_ & Hp & _).
      destruct Hp as [Hp|(_ & k1 & Hp & _)]; rewrite Hk2, Hp.
      + by exists k2.
      + exists (k2 ∪ k1). by rewrite (assoc_L (∪)). }
  split; [exact Hgrow|].
  destruct Hgrow as [kwargs ->]. intros key [v Hv].
  destruct (kwargs !! key) as [v'|] eqn:Hk.
  - exists v'. by apply lookup_union_Some_l.
  - exists v. rewrite lookup_union_r; done.
Qed.

Lemma payload_only_grows_witness :
  let q := snd (values {[ "paused" := VBool true ]}
                  (API.put (API.mk (Session.mk 0 ∅ None)) ["zones"; "ABC"])) in
  let ops := [Execute; Values {[ "name" := VStr "x" ]}; Filter ∅; All] in
  let pending := [object_reply ∅; object_reply ∅] in
  is_Some (payload (self (fst (run ops pending (mkWorld q [])))) !! "paused").
Proof.
  intros q ops pending.
  apply (proj2 (payload_only_grows ops pending (mkWorld q []))).
  exists (VBool true). reflexivity.
Defined.

(** X18.  Sending again sends the same request: two [send] calls in a row
    put the same request on the wire twice and leave the query object as
    the first one left it. *)
Theorem send_again_same_request (pending : list reply) (w : World) :
  let '(_, w1, rest1) := send pending w in
  let '(_, w2, _) := send rest1 w1 in
  exists p, wire w2 = (wire w ++ [p; p])%list /\ self w2 = self w1.
Proof.
  pose proof (send_world pending w) as [Hw1 _].
  destruct (send pending w) as [[r1 w1] rest1]. cbn [fst snd] in Hw1.
  pose proof (send_world rest1 w1) as [Hw2 _].
  destruct (send rest1 w1) as [[r2 w2] rest2]. cbn [fst snd] in Hw2.
  subst w2 w1. eexists. unfold sent. cbn [self wire].
  rewrite attach_payload_idem. split; [|reflexivity].
  by rewrite <- app_assoc.
Qed.

(** ** The extension object: set-up, sessions, handles *)

Lemma accesses_miss (n : nat) (cf : CloudFlare.t) (ctx : CloudFlare.AppCtx)
    (k : nat) :
  CloudFlare.attrs ctx !! "cloudflare_api" = None ->
  let h := API.mk (fst (CloudFlare.session cf (CloudFlare.mkRuntime None k))) in
  let rt1 := CloudFlare.mkRuntime
               (Some (CloudFlare.mkCtx (<["api" := h]> (CloudFlare.attrs ctx))))
               (S k) in
  accesses (S n) cf (CloudFlare.mkRuntime (Some ctx) k)
    = (Ok h :: fst (accesses n cf rt1), snd (accesses n cf rt1)).
Proof.
  intros Hnone h rt1. cbn [accesses]. unfold CloudFlare.api at 1.
  cbn [CloudFlare.top]. rewrite Hnone.
  cbn [CloudFlare.session CloudFlare.fresh CloudFlare.top].
  change (CloudFlare.mkRuntime _ (S k)) with rt1.
  by destruct (accesses n cf rt1).
Qed.

(** X19.  Without the attribute [cloudflare_api] on the context, [n] reads
    of [api] build [n] handles, each on a session of its own (the sessions
    are numbered in the order they are made), and the attribute is still
    not set afterwards. *)
Theorem api_reads_build_sessions (n : nat) (cf : CloudFlare.t)
    (ctx : CloudFlare.AppCtx) (k : nat) :
  CloudFlare.attrs ctx !! "cloudflare_api" = None ->
  let run := accesses n cf (CloudFlare.mkRuntime (Some ctx) k) in
  fst run = map (fun i => Ok (API.mk (fst (CloudFlare.session cf
                                 (CloudFlare.mkRuntime None i)))))
                (seq k n) /\
  CloudFlare.fresh (snd run) = (k + n)%nat /\
  exists ctx',
    CloudFlare.top (snd run) = Some ctx' /\
    CloudFlare.attrs ctx' !! "cloudflare_api" = None.
Proof.
  revert ctx k. induction n as [|n IH]; intros ctx k Hnone run; subst run.
  - simpl. repeat split; [lia|]. by exists ctx.
  - rewrite (accesses_miss n cf ctx k Hnone). cbn [fst snd].
    destruct (IH (CloudFlare.mkCtx
                    (<["api" := API.mk (fst (CloudFlare.session cf
                                        (CloudFlare.mkRuntime None k)))]>
                       (CloudFlare.attrs ctx))) (S k))
      as (Hrs & Hfresh & Hctx).
    { cbn [CloudFlare.attrs]. by rewrite lookup_insert_ne. }
    split; [|split].
    + cbn [seq map]. by rewrite Hrs.
    + rewrite Hfresh. lia.
    + exact Hctx.
Qed.

Lemma api_reads_build_sessions_witness :
  let cf := CloudFlare.mk (Some "me@example.org") (Some "secret") in
  let run := accesses 3 cf (CloudFlare.mkRuntime (Some (CloudFlare.mkCtx ∅)) 0) in
  CloudFlare.fresh (snd run) = 3%nat.
Proof.
  intros cf run.
  exact (proj1 (proj2 (api_reads_build_sessions 3 cf (CloudFlare.mkCtx ∅) 0
                         eq_refl))).
Defined.

(** X20.  With the attribute [cloudflare_api] set on the context, every read
    of [api] returns the handle it holds; no session is built and the
    context is not written. *)
Theorem api_returns_attribute (n : nat) (cf : CloudFlare.t)
    (ctx : CloudFlare.AppCtx) (k : nat) (h : API.t) :
  CloudFlare.attrs ctx !! "cloudflare_api" = Some h ->
  accesses n cf (CloudFlare.mkRuntime (Some ctx) k)
    = (repeat (Ok h) n, CloudFlare.mkRuntime (Some ctx) k).
Proof.
  intros Hsome. induction n as [|n IH]; [done|].
  cbn [accesses]. unfold CloudFlare.api at 1. cbn [CloudFlare.top].
  rewrite Hsome, IH. reflexivity.
Qed.

Lemma api_returns_attribute_witness :
  let cf := CloudFlare.mk None None in
  let h := API.mk (Session.mk 7 ∅ None) in
  let ctx := CloudFlare.mkCtx {[ "cloudflare_api" := h ]} in
  accesses 2 cf (CloudFlare.mkRuntime (Some ctx) 0)
    = ([Ok h; Ok h], CloudFlare.mkRuntime (Some ctx) 0).
Proof.
  intros cf h ctx.
  exact (api_returns_attribute 2 cf ctx 0 h eq_refl).
Defined.



(** X22.  [init_app] registers the extension before it reads the
    configuration and writes [auth_email] before it reads the key.  It
    succeeds exactly when both configuration keys are there; either way the
    extension is registered and the configuration is as it was.  Without
    the e-mail key the credentials are untouched; with the e-mail key but
    without the other one, [KeyError] leaves [auth_email] overwritten and
    [auth_key] as it was. *)
Theorem init_app_partial (ident : nat) (self : CloudFlare.t)
    (app : Extension.App) :
  let '(r, self', app') := Extension.init_app ident self app in
  Extension.extensions app'
    = <["cloudflare" := ident]> (Extension.extensions app) /\
  Extension.config app' = Extension.config app /\
  (r = Ok tt <->
     is_Some (Extension.config app !! "CLOUDFLARE_AUTH_EMAIL") /\
     is_Some (Extension.config app !! "CLOUDFLARE_AUTH_KEY")) /\
  (Extension.config app !! "CLOUDFLARE_AUTH_EMAIL" = None ->
     r = Raise (KeyError "CLOUDFLARE_AUTH_EMAIL") /\ self' = self) /\
  (forall email,
     Extension.config app !! "CLOUDFLARE_AUTH_EMAIL" = Some email ->
     Extension.config app !! "CLOUDFLARE_AUTH_KEY" = None ->
     r = Raise (KeyError "CLOUDFLARE_AUTH_KEY") /\
     CloudFlare.auth_email self' = Some email /\
     CloudFlare.auth_key self' = CloudFlare.auth_key self).
Proof.
  unfold Extension.init_app.
  destruct (Extension.config app !! "CLOUDFLARE_AUTH_EMAIL") as [email|];
    [destruct (Extension.config app !! "CLOUDFLARE_AUTH_KEY") as [key|]|];
    cbn; repeat split; try done; try (intros [? ?]; done);
    try (intros ? [= <-]; done); try (intros [[? ?] [? ?]]; done).
Qed.

(** An application that configures the e-mail address only. *)
Lemma init_app_partial_witness :
  let app := Extension.mkApp ∅ {[ "CLOUDFLARE_AUTH_EMAIL" := "me@example.org" ]} in
  let self := CloudFlare.mk None (Some "old") in
  let '(r, self', _) := Extension.init_app 0 self app in
  r = Raise (KeyError "CLOUDFLARE_AUTH_KEY") /\
  CloudFlare.auth_email self' = Some "me@example.org" /\
  CloudFlare.auth_key self' = Some "old".
Proof.
  intros app self.
  pose proof (init_app_partial 0 self app) as H.
  destruct (Extension.init_app 0 self app) as [[r self'] app'].
  destruct H as (_ & _ & _ & _ & H).
  exact (H "me@example.org" eq_refl eq_refl).
Defined.

(** ** Where an [APIError] comes from *)

Lemma check_raises (response : Response.t) (e : exn) :
  check response = Raise e -> e = APIError response \/ e = AttributeError.
Proof.
  unfold check. destruct (Response.json response) as [data|]; [|by intros [= <-]; left].
  destruct data as [| | | | |d]; simpl; try (intros [= <-]; by right).
  destruct (truthy _); [done|]. intros [= <-]. by left.
Qed.

Lemma py_lt_raises : forall (a b : pyval) (e : exn),
  py_lt a b = Raise e -> e = TypeError.
Proof.
  fix IH 1. intros a b e.
  destruct a as [| x | x | x | xs | x], b as [| y | y | y | ys | y];
    simpl; try congruence.
  revert ys. induction xs as [|x xs IHxs]; intros [|y ys]; try congruence.
  destruct (py_eq x y); [apply IHxs | apply IH].
Qed.

Lemma py_getitem_raises (v : pyval) (key : string) (e : exn) (r : Response.t) :
  py_getitem v key = Raise e -> e <> APIError r.
Proof.
  unfold py_getitem. destruct v; try congruence.
  destruct (_ !! _); congruence.
Qed.

Lemma turn_page_raises (data : pyval) (q q' : APIQuery.t) (e : exn) :
  turn_page data q = (Raise e, q') -> forall r, e <> APIError r.
Proof.
  unfold turn_page. intros H r.
  destruct (py_get data "result_info" VNone) as [info|e0] eqn:Hget.
  2: { injection H as <- _. unfold py_get in Hget.
       destruct data; congruence. }
  assert (Hrest :
    (if negb (String.eqb (Request.method (request q)) "GET")
     then (Raise AssertionError, q)
     else
       match (count <- py_getitem info "count" ;;
              per_page <- py_getitem info "per_page" ;;
              py_lt count per_page) with
       | Raise e => (Raise e, q)
       | Ok true => (Ok false, q)
       | Ok false =>
           match (page <- py_getitem info "page" ;; py_succ page) with
           | Raise e => (Raise e, q)
           | Ok next =>
               (Ok true,
                APIQuery.mk (session q)
                  (Request.set_params (request q)
                     (<["page" := next]> (Request.params (request q))))
                  (payload q))
           end
       end) = (Raise e, q') -> e <> APIError r).
  { clear H. destruct (negb _); [congruence|].
    destruct (py_getitem info "count") as [c|e1] eqn:Hc; cbn [bind].
    2: { intros [= <- _]. by eapply py_getitem_raises. }
    destruct (py_getitem info "per_page") as [pp|e1] eqn:Hpp; cbn [bind].
    2: { intros [= <- _]. by eapply py_getitem_raises. }
    destruct (py_lt c pp) as [[|]|e1] eqn:Hlt.
    - congruence.
    - destruct (py_getitem info "page") as [pg|e1] eqn:Hpg; cbn [bind].
      2: { intros [= <- _]. by eapply py_getitem_raises. }
      unfold py_succ. destruct (as_int pg); congruence.
    - intros [= <- _]. apply py_lt_raises in Hlt. congruence. }
  destruct info; by apply Hrest.
Qed.

Lemma next_or_none_ending (g : gen) (e : exn) :
  fst (fst (next_or_none g)) = Raise e -> ending g = Some e.
Proof. destruct g; simpl; congruence. Qed.

Lemma list_of_ending (g : gen) (e : exn) :
  fst (fst (list_of g)) = Raise e <-> ending g = Some e.
Proof.
  induction g as [v w pending k IH|w pending|e' w pending]; simpl.
  - destruct (list_of k) as [[[l|e''] w'] rest]; simpl in *;
      rewrite <- IH; split; congruence.
  - split; discriminate.
  - split; congruence.
Qed.

Lemma ending_yield_from (l : list pyval) (w : World) (pending : list reply)
    (k : gen) :
  ending (yield_from l w pending k) = ending k.
Proof.
  induction l as [|v l IH]; [done|].
  change (yield_from (v :: l) w pending k)
    with (Yield v w pending (yield_from l w pending k)).
  simpl. exact IH.
Qed.

Lemma round_ending (pending : list reply) (w : World) (again : World -> gen)
    (r : Response.t) :
  ending (round pending w again) = Some (APIError r) ->
  (exists rest, pending = Some r :: rest /\ check r = Raise (APIError r)) \/
  exists w2, ending (again w2) = Some (APIError r).
Proof.
  unfold round, send.
  destruct pending as [|[response|] rest]; try (simpl; discriminate).
  destruct (check response) as [data|e] eqn:Hcheck.
  2: { simpl. intros [= ->]. left.
       destruct (check_raises _ _ Hcheck) as [[= ->]|]; [|discriminate].
       by exists rest. }
  cbn [bind].
  destruct (py_getitem data "result") as [result|e] eqn:Hres.
  2: { simpl. intros [= ->]. by destruct (py_getitem_raises _ _ _ r Hres). }
  cbn [bind]. cbv zeta.
  destruct (turn_page data _) as [res q'] eqn:Hturn.
  assert (Hafter : forall ws,
                   ending (match res with
                           | Raise e => Throw e (mkWorld q' ws) rest
                           | Ok false => Return (mkWorld q' ws) rest
                           | Ok true => again (mkWorld q' ws)
                           end) = Some (APIError r) ->
                   exists w2, ending (again w2) = Some (APIError r)).
  { intros ws. destruct res as [[|]|e]; simpl.
    - intros H. by eexists.
    - discriminate.
    - intros [= ->]. by destruct (turn_page_raises _ _ _ _ Hturn r). }
  destruct result; try (simpl; discriminate).
  - rewrite ending_yield_from. intros H. right. by eapply Hafter.
  - rewrite ending_yield_from. intros H. right. by eapply Hafter.
Qed.

Lemma iter_ending (pending : list reply) (w : World) (r : Response.t) :
  ending (iter pending w) = Some (APIError r) ->
  Some r ∈ pending /\ check r = Raise (APIError r).
Proof.
  revert w. induction pending as [|x rest IH]; intros w H.
  - rewrite iter_nil in H. discriminate.
  - rewrite iter_cons in H.
    apply round_ending in H as [(rest' & [= -> ->] & Hcheck)|[w2 H]].
    + split; [by left | exact Hcheck].
    + apply IH in H as [Hin Hcheck]. split; [by right | exact Hcheck].
Qed.

(** X23.  An [APIError] is never made up: when [all], [first], [execute] or
    [send] raises [APIError], the response it carries is one of the replies
    that were pending, and it is a response that does not pass the
    validation of the envelope.  A failure of the transport is not turned
    into an [APIError]. *)
Theorem api_error_carries_its_response (pending : list reply) (w : World)
    (r : Response.t) :
  fst (fst (all pending w)) = Raise (APIError r) \/
  fst (fst (first pending w)) = Raise (APIError r) \/
  fst (fst (execute pending w)) = Raise (APIError r) \/
  fst (fst (send pending w)) = Raise (APIError r) ->
  Some r ∈ pending /\ check r = Raise (APIError r).
Proof.
  assert (Hsend : fst (fst (send pending w)) = Raise (APIError r) ->
                  Some r ∈ pending /\ check r = Raise (APIError r)).
  { unfold send. destruct pending as [|[response|] rest]; try discriminate.
    simpl. intros Hcheck.
    destruct (check_raises _ _ Hcheck) as [[= ->]|]; [|discriminate].
    split; [by left | exact Hcheck]. }
  intros [H|[H|[H|H]]].
  - apply list_of_ending in H. by apply iter_ending in H.
  - apply next_or_none_ending in H. by apply iter_ending in H.
  - apply Hsend. unfold execute in H.
    destruct (send pending w) as [[[data|e] w'] rest]; simpl in *; congruence.
  - by apply Hsend.
Qed.

(** A response that says [success: false], met by [all]. *)
Lemma api_error_carries_its_response_witness :
  let bad := Response.mk 403 "" (Some (VDict {[ "success" := VBool false ]})) in
  let w := mkWorld (API.get (API.mk (Session.mk 0 ∅ None)) ["zones"]) [] in
  Some bad ∈ [Some bad] /\ check bad = Raise (APIError bad).
Proof.
  intros bad w.
  apply (api_error_carries_its_response [Some bad] w bad).
  left. reflexivity.
Defined.

(** A listing read in full, with one reply to spare. *)
Lemma requests_match_replies_witness :
  let pending := [page_reply [VInt 1] (mkInfo 1 20 1); object_reply ∅] in
  let w := mkWorld (API.get (API.mk (Session.mk 0 ∅ None)) ["zones"]) [] in
  exists used new,
    pending = (used ++ snd (run [All] pending w))%list /\
    wire (fst (run [All] pending w)) = (wire w ++ new)%list /\
    length new = length used.
Proof.
  intros pending w.
  destruct (requests_match_replies [All] pending w)
    as (used & new & Hused & Hnew & _ & Heq).
  exists used, new. split; [exact Hused|]. split; [exact Hnew|].
  apply Heq. discriminate.
Defined.
